(** * The routing graph starter of omim (routing/index_graph_starter.cpp)

    [IndexGraphStarter] splices a start and a finish point into a road
    graph for the duration of one search, and afterwards turns the joint
    path found by the search back into a path of road points.  The file
    embeds the functions of index_graph_starter.cpp and proves the
    properties its specification states about them.

    Conventions.  [uint32_t] values are 32-bit machine words (coqutil),
    so every sum or difference wraps as in C++.  A [double] is modelled
    by a rational: the code only stores, compares and passes weights on,
    and the comparisons of finite doubles agree with those of the
    rationals; NaN and the infinities are outside the model.  An output
    parameter [vector<T> &] is a list that the function receives and
    returns.  A thrown [RoutingException] is a value of [Result]. *)

From Stdlib Require Import ZArith List Bool Lia QArith.
From coqutil Require Import Word.Interface Word.Properties Word.Naive Word.Bitwidth32.
From Equations Require Import Equations.
Import ListNotations.
Local Open Scope Z_scope.

Abbreviation uint32_t := Naive.word32.
Abbreviation double := Q.

#[local] Existing Instance Naive.word32_ok.
#[local] Obligation Tactic := idtac.

(** ** Data of the headers the file includes *)

Module Joint.
(** [Joint::Id]. *)
Definition Id : Type := uint32_t.
End Joint.

(** [RoadPoint]: a feature (road) and the index of a point on it. *)
Record RoadPoint : Type := mkRoadPoint {
  GetFeatureId : uint32_t;
  GetPointId : uint32_t
}.

(** [RoadPoint::operator==]. *)
Definition RoadPoint_eqb (a b : RoadPoint) : bool :=
  word.eqb (GetFeatureId a) (GetFeatureId b) && word.eqb (GetPointId a) (GetPointId b).

(** [JointEdge]: the joint an edge leads to and the weight of the edge. *)
Record JointEdge : Type := mkJointEdge {
  GetTarget : Joint.Id;
  GetWeight : double
}.

(** [RoadGeometry]: the two flags the starter reads, and the points of the
    road, which only the estimator looks at. *)
Record RoadGeometry : Type := mkRoadGeometry {
  IsRoad : bool;
  IsOneWay : bool;
  m_points : list (double * double)
}.

(** The two [MYTHROW (RoutingException, ...)] of the file, with the values
    their messages carry. *)
Inductive RoutingException : Type :=
| CantFindCommonFeature (jointId0 jointId1 : Joint.Id)
| WrongEquality (pointFrom featureId : uint32_t).

Inductive Result (A : Type) : Type :=
| Returned (a : A)
| Thrown (e : RoutingException).
Arguments Returned {A} a.
Arguments Thrown {A} e.

(** ** The road graph, as the starter uses it *)

Module IndexGraph.

(** [IndexGraph] is defined outside index_graph_starter.cpp: its queries are
    the fields of a record.  A query that fills a [vector<JointEdge> &] is the list of the
    edges it adds; [ForEachPoint] is the list of the points it visits, in
    the order of the visit; [CalcEdgesWeight] is the estimator reached
    through [GetEstimator ()]. *)
Record t : Type := mk {
  GetNumJoints : uint32_t;
  GetJointId : RoadPoint -> Joint.Id;
  GetRoad : uint32_t -> RoadGeometry;
  JointLiesOnRoad : Joint.Id -> uint32_t -> bool;
  ForEachPoint : Joint.Id -> list RoadPoint;
  EdgesList : Joint.Id -> bool -> list JointEdge;
  NeighboringEdges : RoadPoint -> bool -> list JointEdge;
  DirectedEdgeWeight : uint32_t -> uint32_t -> uint32_t -> bool -> option double;
  CalcEdgesWeight : RoadGeometry -> uint32_t -> uint32_t -> double
}.

(** Modelled from the spec: [IndexGraph::GetEdgesList] (index_graph.cpp is
    missing) adds the network's own edges of a joint to the buffer. *)
Definition GetEdgesList (g : t) (jointId : Joint.Id) (isOutgoing : bool)
    (edges : list JointEdge) : list JointEdge :=
  edges ++ EdgesList g jointId isOutgoing.

(** Modelled from the spec: [IndexGraph::GetNeighboringEdges] (missing) adds
    the edges reachable from, or into, a point of a road. *)
Definition GetNeighboringEdges (g : t) (rp : RoadPoint) (isOutgoing : bool)
    (edges : list JointEdge) : list JointEdge :=
  edges ++ NeighboringEdges g rp isOutgoing.

(** Modelled from the spec: [IndexGraph::GetDirectedEdge] (missing) adds the
    single directed edge between two points of a road, if there is one,
    with the target it is given. *)
Definition GetDirectedEdge (g : t) (featureId pointFrom pointTo : uint32_t)
    (target : Joint.Id) (isOutgoing : bool) (edges : list JointEdge) : list JointEdge :=
  match DirectedEdgeWeight g featureId pointFrom pointTo isOutgoing with
  | Some weight => edges ++ [mkJointEdge target weight]
  | None => edges
  end.

End IndexGraph.

(** ** IndexGraphStarter *)

Module IndexGraphStarter.

(** [IndexGraphStarter::FakeJoint]. *)
Record FakeJoint : Type := mkFakeJoint {
  m_point : RoadPoint;
  m_fakeId : Joint.Id;
  m_jointId : Joint.Id
}.

(** Modelled from the spec: [FakeJoint::IsFake] (declared in the header,
    which is missing): an endpoint is virtual when it resolved to its own
    reserved identifier. *)
Definition IsFake (j : FakeJoint) : bool := word.eqb (m_jointId j) (m_fakeId j).

Record t : Type := mk {
  m_graph : IndexGraph.t;
  m_start : FakeJoint;
  m_finish : FakeJoint
}.

Section Construction.

(** [Joint::kInvalidId], the identifier [GetJointId] answers for a point
    that is on no joint.  joint.hpp is missing, so its value is left open. *)
Variable kInvalidId : Joint.Id.

(** [FakeJoint::CalcJointId]; [fakeId] is the member [m_fakeId]. *)
Definition CalcJointId (fakeId : Joint.Id) (graph : IndexGraph.t)
    (suggestedId : Joint.Id) : Joint.Id :=
  if word.eqb suggestedId kInvalidId then fakeId else suggestedId.

(** The constructor of [FakeJoint]. *)
Definition newFakeJoint (graph : IndexGraph.t) (point : RoadPoint)
    (fakeId suggestedId : Joint.Id) : FakeJoint :=
  {| m_point := point;
     m_fakeId := fakeId;
     m_jointId := CalcJointId fakeId graph suggestedId |}.

(** The constructor of [IndexGraphStarter]. *)
Definition new (graph : IndexGraph.t) (startPoint finishPoint : RoadPoint) : t :=
  let start :=
    newFakeJoint graph startPoint (IndexGraph.GetNumJoints graph)
      (IndexGraph.GetJointId graph startPoint) in
  let finish :=
    newFakeJoint graph finishPoint
      (word.add (IndexGraph.GetNumJoints graph) (word.of_Z 1))
      (if RoadPoint_eqb startPoint finishPoint
       then m_jointId start
       else IndexGraph.GetJointId graph finishPoint) in
  {| m_graph := graph; m_start := start; m_finish := finish |}.

End Construction.

(** *** Edges *)

Section Edges.

Variable s : t.

(** [IndexGraphStarter::GetFakeEdges]. *)
Definition GetFakeEdges (from to : FakeJoint) (isOutgoing : bool)
    (edges : list JointEdge) : list JointEdge :=
  let edges := IndexGraph.GetNeighboringEdges (m_graph s) (m_point from) isOutgoing edges in
  if IsFake to
     && word.eqb (GetFeatureId (m_point from)) (GetFeatureId (m_point to))
  then
    IndexGraph.GetDirectedEdge (m_graph s) (GetFeatureId (m_point from))
      (GetPointId (m_point from)) (GetPointId (m_point to)) (m_jointId to)
      isOutgoing edges
  else edges.

(** The body of the loop of [GetArrivalFakeEdges]. *)
Definition arrival_step (jointId : Joint.Id) (fakeJoint : FakeJoint)
    (edges : list JointEdge) (edge : JointEdge) : list JointEdge :=
  if word.eqb (GetTarget edge) jointId
  then edges ++ [mkJointEdge (m_jointId fakeJoint) (GetWeight edge)]
  else edges.

(** [IndexGraphStarter::GetArrivalFakeEdges]. *)
Definition GetArrivalFakeEdges (jointId : Joint.Id) (fakeJoint : FakeJoint)
    (isOutgoing : bool) (edges : list JointEdge) : list JointEdge :=
  if negb (IsFake fakeJoint) then edges
  else if negb (IndexGraph.JointLiesOnRoad (m_graph s) jointId
                  (GetFeatureId (m_point fakeJoint)))
  then edges
  else
    let startEdges :=
      IndexGraph.GetNeighboringEdges (m_graph s) (m_point fakeJoint)
        (negb isOutgoing) [] in
    fold_left (arrival_step jointId fakeJoint) startEdges edges.

(** [IndexGraphStarter::GetEdgesList]; the first [let] is [edges.clear ()]. *)
Definition GetEdgesList (jointId : Joint.Id) (isOutgoing : bool)
    (edges : list JointEdge) : list JointEdge :=
  let edges : list JointEdge := [] in
  if word.eqb jointId (m_fakeId (m_start s))
  then GetFakeEdges (m_start s) (m_finish s) isOutgoing edges
  else if word.eqb jointId (m_fakeId (m_finish s))
  then GetFakeEdges (m_finish s) (m_start s) isOutgoing edges
  else
    let edges := IndexGraph.GetEdgesList (m_graph s) jointId isOutgoing edges in
    let edges := GetArrivalFakeEdges jointId (m_start s) isOutgoing edges in
    GetArrivalFakeEdges jointId (m_finish s) isOutgoing edges.

End Edges.

(** *** The points of two adjacent joints on a common road *)

(** One call of the estimator: the road and the two point indices. *)
Definition EstimatorCall : Type := (RoadGeometry * uint32_t * uint32_t)%type.

(** The variables the two nested lambdas of [FindPointsWithCommonFeature]
    capture by reference, and the calls of [CalcEdgesWeight] made so far. *)
Record Locals : Type := mkLocals {
  found : bool;
  minWeight : double;
  result0 : RoadPoint;
  result1 : RoadPoint;
  calls : list EstimatorCall
}.

Section Route.

Variable s : t.

(** Modelled from the spec: [IndexGraphStarter::ForEachPoint] (a template of
    the header, which is missing) visits the point of the start or of the
    finish for their reserved identifiers, as [GetPoint] does, and the
    points of the joint in the network otherwise. *)
Definition ForEachPoint (jointId : Joint.Id) : list RoadPoint :=
  if word.eqb jointId (m_fakeId (m_start s)) then [m_point (m_start s)]
  else if word.eqb jointId (m_fakeId (m_finish s)) then [m_point (m_finish s)]
  else IndexGraph.ForEachPoint (m_graph s) jointId.

(** [m_graph.GetEstimator ().CalcEdgesWeight (road, pointFrom, pointTo)],
    recorded in [calls]. *)
Definition estimate (l : Locals) (road : RoadGeometry) (pointFrom pointTo : uint32_t)
    : double * Locals :=
  (IndexGraph.CalcEdgesWeight (m_graph s) road pointFrom pointTo,
   mkLocals (found l) (minWeight l) (result0 l) (result1 l)
     (calls l ++ [(road, pointFrom, pointTo)])).

(** The [if (minWeight < 0.0)] block: the weight of the pair found first is
    computed when a second pair shows up. *)
Definition compute_minWeight (l : Locals) : Locals :=
  if Qlt_le_dec (minWeight l) 0 then
    let prevRoad := IndexGraph.GetRoad (m_graph s) (GetFeatureId (result0 l)) in
    let '(weight, l) :=
      estimate l prevRoad (GetPointId (result0 l)) (GetPointId (result1 l)) in
    mkLocals (found l) weight (result0 l) (result1 l) (calls l)
  else l.

(** The end of the inner lambda, [if (found) ... else ...], which a pair of
    points reaches when none of the three tests before it returned. *)
Definition consider (rp0 rp1 : RoadPoint) (l : Locals) : Locals :=
  let road := IndexGraph.GetRoad (m_graph s) (GetFeatureId rp0) in
  if found l then
    let l := compute_minWeight l in
    let '(weight, l) := estimate l road (GetPointId rp0) (GetPointId rp1) in
    if Qlt_le_dec weight (minWeight l)
    then mkLocals (found l) weight rp0 rp1 (calls l)
    else l
  else mkLocals true (minWeight l) rp0 rp1 (calls l).

(** The body of the inner lambda. *)
Definition visit (rp0 rp1 : RoadPoint) (l : Locals) : Locals :=
  if negb (word.eqb (GetFeatureId rp0) (GetFeatureId rp1)) then l
  else
    let road := IndexGraph.GetRoad (m_graph s) (GetFeatureId rp0) in
    if negb (IsRoad road) then l
    else if IsOneWay road && word.gtu (GetPointId rp0) (GetPointId rp1) then l
    else consider rp0 rp1 l.

(** The two nested [ForEachPoint]; [result0] and [result1] are the output
    parameters as the caller passed them. *)
Definition FindPoints_locals (jointId0 jointId1 : Joint.Id)
    (result0 result1 : RoadPoint) : Locals :=
  fold_left
    (fun l rp0 => fold_left (fun l rp1 => visit rp0 rp1 l) (ForEachPoint jointId1) l)
    (ForEachPoint jointId0)
    (mkLocals false (-1) result0 result1 []).

(** [IndexGraphStarter::FindPointsWithCommonFeature]: the two output
    parameters, or the exception. *)
Definition FindPointsWithCommonFeature (jointId0 jointId1 : Joint.Id)
    (result0 result1 : RoadPoint) : Result (RoadPoint * RoadPoint) :=
  let l := FindPoints_locals jointId0 jointId1 result0 result1 in
  if negb (found l) then Thrown (CantFindCommonFeature jointId0 jointId1)
  else Returned (IndexGraphStarter.result0 l, IndexGraphStarter.result1 l).

(** *** From a path of joints to a path of road points *)

(** A computation on the output vector [roadPoints] that may throw; what was
    added to the vector before the throw stays in it. *)
Definition M (A : Type) : Type := list RoadPoint -> Result A * list RoadPoint.

Definition ret {A : Type} (a : A) : M A := fun roadPoints => (Returned a, roadPoints).

Definition bind {A B : Type} (m : M A) (k : A -> M B) : M B :=
  fun roadPoints =>
    match m roadPoints with
    | (Returned a, roadPoints) => k a roadPoints
    | (Thrown e, roadPoints) => (Thrown e, roadPoints)
    end.

Definition throw {A : Type} (e : RoutingException) : M A :=
  fun roadPoints => (Thrown e, roadPoints).

Definition call {A : Type} (r : Result A) : M A := fun roadPoints => (r, roadPoints).

Definition emplace_back (rp : RoadPoint) : M unit :=
  fun roadPoints => (Returned tt, roadPoints ++ [rp]).

Definition modify (f : list RoadPoint -> list RoadPoint) : M unit :=
  fun roadPoints => (Returned tt, f roadPoints).

Notation "x <- m ;; k" := (bind m (fun x => k))
  (at level 61, m at next level, right associativity).
Notation "m ;;; k" := (bind m (fun _ => k)) (at level 61, right associativity).

Definition inspect {A : Type} (a : A) : {b : A | a = b} := exist _ a eq_refl.

(** [for (pointId = ...; pointId < pointTo; ++pointId)
       roadPoints.emplace_back (featureId, pointId);] *)
Equations? loop_forward (featureId pointId pointTo : uint32_t)
    (roadPoints : list RoadPoint) : list RoadPoint
    by wf (Z.to_nat (word.unsigned pointTo - word.unsigned pointId)) lt :=
  loop_forward featureId pointId pointTo roadPoints
    with inspect (word.ltu pointId pointTo) => {
    | exist _ true H :=
        loop_forward featureId (word.add pointId (word.of_Z 1)) pointTo
          (roadPoints ++ [mkRoadPoint featureId pointId]);
    | exist _ false _ := roadPoints }.
Proof.
  rewrite word.unsigned_ltu in H. apply Z.ltb_lt in H.
  pose proof (word.unsigned_range pointTo).
  rewrite word.unsigned_add_nowrap; rewrite word.unsigned_of_Z_1; lia.
Qed.

(** [for (pointId = ...; pointId > pointTo; --pointId)
       roadPoints.emplace_back (featureId, pointId);] *)
Equations? loop_backward (featureId pointId pointTo : uint32_t)
    (roadPoints : list RoadPoint) : list RoadPoint
    by wf (Z.to_nat (word.unsigned pointId - word.unsigned pointTo)) lt :=
  loop_backward featureId pointId pointTo roadPoints
    with inspect (word.gtu pointId pointTo) => {
    | exist _ true H :=
        loop_backward featureId (word.sub pointId (word.of_Z 1)) pointTo
          (roadPoints ++ [mkRoadPoint featureId pointId]);
    | exist _ false _ := roadPoints }.
Proof.
  unfold word.gtu in H. rewrite word.unsigned_ltu in H. apply Z.ltb_lt in H.
  pose proof (word.unsigned_range pointTo).
  rewrite word.unsigned_sub_nowrap; rewrite word.unsigned_of_Z_1; lia.
Qed.

(** The value of [RoadPoint rp0; RoadPoint rp1;] before the call that fills
    them; it is never read. *)
Definition RoadPoint_default : RoadPoint := mkRoadPoint (word.of_Z 0) (word.of_Z 0).

(** The body of the loop of [RedressRoute], at index [i]. *)
Definition RedressRoute_body (i : nat) (prevJoint nextJoint : Joint.Id) : M unit :=
  rps <- call (FindPointsWithCommonFeature prevJoint nextJoint
                 RoadPoint_default RoadPoint_default) ;;
  let '(rp0, rp1) := rps in
  (if (i =? 0)%nat then emplace_back rp0 else ret tt) ;;;
  let featureId := GetFeatureId rp0 in
  let pointFrom := GetPointId rp0 in
  let pointTo := GetPointId rp1 in
  (if word.ltu pointFrom pointTo
   then modify (loop_forward featureId (word.add pointFrom (word.of_Z 1)) pointTo)
   else if word.gtu pointFrom pointTo
   then modify (loop_backward featureId (word.sub pointFrom (word.of_Z 1)) pointTo)
   else throw (WrongEquality pointFrom featureId)) ;;;
  emplace_back rp1.

(** [for (size_t i = 0; i < route.size () - 1; ++i)]: [route] is what is left
    of the path from index [i] on. *)
Fixpoint RedressRoute_loop (i : nat) (route : list Joint.Id) : M unit :=
  match route with
  | [] => ret tt
  | prevJoint :: rest =>
      match rest with
      | [] => ret tt
      | nextJoint :: _ =>
          RedressRoute_body i prevJoint nextJoint ;;;
          RedressRoute_loop (S i) rest
      end
  end.

(** [IndexGraphStarter::RedressRoute]. *)
Definition RedressRoute (route : list Joint.Id) : M unit :=
  if (length route <? 2)%nat then
    if (length route =? 1)%nat then emplace_back (m_point (m_start s)) else ret tt
  else RedressRoute_loop 0 route.

End Route.

End IndexGraphStarter.

Import IndexGraphStarter.

(** ** Specification-side notions *)

Section Notions.

Variable s : t.

(** The weight of a pair of points of one road, as the estimator gives it. *)
Definition pair_weight (c : RoadPoint * RoadPoint) : double :=
  IndexGraph.CalcEdgesWeight (m_graph s)
    (IndexGraph.GetRoad (m_graph s) (GetFeatureId (fst c)))
    (GetPointId (fst c)) (GetPointId (snd c)).

(** A pair of points qualifies when both are on the same road, the road is
    routable and, on a one-way road, the first offset is at most the
    second. *)
Definition Qualifies (c : RoadPoint * RoadPoint) : Prop :=
  let road := IndexGraph.GetRoad (m_graph s) (GetFeatureId (fst c)) in
  GetFeatureId (fst c) = GetFeatureId (snd c) /\
  IsRoad road = true /\
  (IsOneWay road = true ->
   word.unsigned (GetPointId (fst c)) <= word.unsigned (GetPointId (snd c))).

(** The three tests at the head of the inner lambda, as one boolean. *)
Definition qualifies (c : RoadPoint * RoadPoint) : bool :=
  let road := IndexGraph.GetRoad (m_graph s) (GetFeatureId (fst c)) in
  word.eqb (GetFeatureId (fst c)) (GetFeatureId (snd c))
  && IsRoad road
  && negb (IsOneWay road && word.gtu (GetPointId (fst c)) (GetPointId (snd c))).

(** The pairs of points of two joints, in the order the nested
    [ForEachPoint] visit them, and those of them that qualify. *)
Definition pairs (jointId0 jointId1 : Joint.Id) : list (RoadPoint * RoadPoint) :=
  list_prod (ForEachPoint s jointId0)
            (ForEachPoint s jointId1).

Definition candidates (jointId0 jointId1 : Joint.Id) : list (RoadPoint * RoadPoint) :=
  filter qualifies (pairs jointId0 jointId1).

(** What the variables hold after the pairs [cs], one at least, were
    considered: the pair kept is the first of the lightest ones; the
    estimator was not called if the pair is the only one, and [minWeight] is
    the weight of the pair kept otherwise. *)
Definition kept (cs : list (RoadPoint * RoadPoint)) (l : Locals) : Prop :=
  let pair := (result0 l, result1 l) in
  found l = true /\
  (exists before after,
     cs = before ++ pair :: after /\
     (forall c, In c before -> (pair_weight pair < pair_weight c)%Q) /\
     (forall c, In c after -> (pair_weight pair <= pair_weight c)%Q)) /\
  (length cs = 1%nat -> minWeight l = (-1)%Q /\ calls l = []) /\
  ((2 <= length cs)%nat -> minWeight l = pair_weight pair /\ calls l <> []).

(** A path of joints together with the pair of points
    [FindPointsWithCommonFeature] resolves for each two consecutive
    joints. *)
Inductive Resolved : list Joint.Id -> list (RoadPoint * RoadPoint) -> Prop :=
| Resolved_last (j : Joint.Id) : Resolved [j] []
| Resolved_next (j0 j1 : Joint.Id) (rest : list Joint.Id)
    (seg : RoadPoint * RoadPoint) (segs : list (RoadPoint * RoadPoint)) :
    FindPointsWithCommonFeature s j0 j1
      RoadPoint_default RoadPoint_default
      = Returned seg ->
    Resolved (j1 :: rest) segs ->
    Resolved (j0 :: j1 :: rest) (seg :: segs).

End Notions.

(** The points of road [featureId] with the offsets [from + 1], [from + 2],
    ..., [from + n]. *)
Definition ascending (featureId : uint32_t) (from : Z) (n : nat) : list RoadPoint :=
  map (fun k => mkRoadPoint featureId (word.of_Z (from + 1 + Z.of_nat k))) (seq 0 n).

(** The points of road [featureId] with the offsets [from - 1], [from - 2],
    ..., [from - n]. *)
Definition descending (featureId : uint32_t) (from : Z) (n : nat) : list RoadPoint :=
  map (fun k => mkRoadPoint featureId (word.of_Z (from - 1 - Z.of_nat k))) (seq 0 n).

(** The points strictly between the two points of a segment, on the road of
    the first, from the first towards the second. *)
Definition interior (seg : RoadPoint * RoadPoint) : list RoadPoint :=
  let from := word.unsigned (GetPointId (fst seg)) in
  let to := word.unsigned (GetPointId (snd seg)) in
  if from <? to then ascending (GetFeatureId (fst seg)) from (Z.to_nat (to - from - 1))
  else descending (GetFeatureId (fst seg)) from (Z.to_nat (from - to - 1)).

(** What a segment adds to the path after its first point. *)
Definition segment_points (seg : RoadPoint * RoadPoint) : list RoadPoint :=
  interior seg ++ [snd seg].

(** The edges an endpoint has to a joint: the neighbouring edges of its
    point whose target is the joint. *)
Definition hits (s : t) (jointId : Joint.Id) (fakeJoint : FakeJoint) (isOutgoing : bool)
    : list JointEdge :=
  filter (fun e => word.eqb (GetTarget e) jointId)
    (IndexGraph.NeighboringEdges (m_graph s) (m_point fakeJoint) isOutgoing).

(** An edge of an endpoint, turned round: it leads to the endpoint. *)
Definition reversed (fakeJoint : FakeJoint) (e : JointEdge) : JointEdge :=
  mkJointEdge (m_jointId fakeJoint) (GetWeight e).

(** The edge [GetDirectedEdge] adds between the points of two endpoints, if
    the network has one. *)
Definition direct (s : t) (from to : FakeJoint) (isOutgoing : bool) : list JointEdge :=
  match IndexGraph.DirectedEdgeWeight (m_graph s) (GetFeatureId (m_point from))
          (GetPointId (m_point from)) (GetPointId (m_point to)) isOutgoing with
  | Some weight => [mkJointEdge (m_jointId to) weight]
  | None => []
  end.

(** The points of a path whose consecutive joints resolved to [segs]: the
    first point of the first segment, then what each segment adds. *)
Definition path_points (segs : list (RoadPoint * RoadPoint)) : list RoadPoint :=
  match segs with
  | [] => []
  | seg :: _ => fst seg :: flat_map segment_points segs
  end.

(** The two points of a segment have different offsets. *)
Definition proper (seg : RoadPoint * RoadPoint) : Prop :=
  GetPointId (fst seg) <> GetPointId (snd seg).

(** A computation only adds to the vector of road points: run on a vector,
    it ends as it does on the empty vector, and leaves the vector followed by
    what it leaves of the empty one. *)
Definition appending {A : Type} (m : M A) : Prop :=
  forall roadPoints : list RoadPoint,
    m roadPoints = (fst (m []), roadPoints ++ snd (m [])).

(** ** Example networks *)

Module Examples.

Definition u32 (z : Z) : uint32_t := word.of_Z z.

Definition rp (featureId pointId : Z) : RoadPoint := mkRoadPoint (u32 featureId) (u32 pointId).

Definition kInvalidId : Joint.Id := u32 4294967295.

(** Road 0 is a two-way road of five points, road 1 a one-way road of four
    points, road 2 a two-way road of three points; feature 3 is not a
    road. *)
Definition town_road (featureId : uint32_t) : RoadGeometry :=
  match word.unsigned featureId with
  | 0 => mkRoadGeometry true false [(0, 0); (1, 0); (2, 0); (3, 0); (4, 0)]%Q
  | 1 => mkRoadGeometry true true [(4, 0); (4, 1); (4, 2); (4, 3)]%Q
  | 2 => mkRoadGeometry true false [(0, 0); (2, 1); (4, 0)]%Q
  | _ => mkRoadGeometry false false []
  end.

(** Joint 0 joins the first points of roads 0 and 2; joint 1 joins their last
    points and the first point of road 1; joint 2 is the last point of
    road 1. *)
Definition town_points (jointId : Joint.Id) : list RoadPoint :=
  match word.unsigned jointId with
  | 0 => [rp 0 0; rp 2 0]
  | 1 => [rp 0 4; rp 2 2; rp 1 0]
  | 2 => [rp 1 3]
  | _ => []
  end.

Definition town_joint (p : RoadPoint) : Joint.Id :=
  match word.unsigned (GetFeatureId p), word.unsigned (GetPointId p) with
  | 0, 0 | 2, 0 => u32 0
  | 0, 4 | 2, 2 | 1, 0 => u32 1
  | 1, 3 => u32 2
  | _, _ => kInvalidId
  end.

Definition town_lies_on (jointId : Joint.Id) (featureId : uint32_t) : bool :=
  existsb (fun p => word.eqb (GetFeatureId p) featureId) (town_points jointId).

(** The estimator charges the number of points of the road for each step
    along it. *)
Definition town_weight (road : RoadGeometry) (pointFrom pointTo : uint32_t) : double :=
  inject_Z (Z.of_nat (length (m_points road))
            * Z.abs (word.unsigned pointTo - word.unsigned pointFrom)).

Definition edge (target weight : Z) : JointEdge := mkJointEdge (u32 target) (inject_Z weight).

Definition town_edges (jointId : Joint.Id) (isOutgoing : bool) : list JointEdge :=
  match word.unsigned jointId, isOutgoing with
  | 0, _ => [edge 1 20; edge 1 6]
  | 1, true => [edge 0 20; edge 0 6; edge 2 12]
  | 1, false => [edge 0 20; edge 0 6]
  | 2, false => [edge 1 12]
  | _, _ => []
  end.

(** The neighbours of the two points the examples start and finish at:
    point 2 of road 0 and point 1 of road 1. *)
Definition town_neighbors (p : RoadPoint) (isOutgoing : bool) : list JointEdge :=
  match word.unsigned (GetFeatureId p), word.unsigned (GetPointId p), isOutgoing with
  | 0, 2, _ => [edge 0 10; edge 1 10]
  | 1, 1, true => [edge 2 8]
  | 1, 1, false => [edge 1 4]
  | _, _, _ => []
  end.

Definition town_directed (featureId pointFrom pointTo : uint32_t) (isOutgoing : bool)
    : option double :=
  let road := town_road featureId in
  if negb (IsRoad road) then None
  else if IsOneWay road && negb (Bool.eqb isOutgoing (word.ltu pointFrom pointTo)) then None
  else Some (town_weight road pointFrom pointTo).

Definition town : IndexGraph.t :=
  {| IndexGraph.GetNumJoints := u32 3;
     IndexGraph.GetJointId := town_joint;
     IndexGraph.GetRoad := town_road;
     IndexGraph.JointLiesOnRoad := town_lies_on;
     IndexGraph.ForEachPoint := town_points;
     IndexGraph.EdgesList := town_edges;
     IndexGraph.NeighboringEdges := town_neighbors;
     IndexGraph.DirectedEdgeWeight := town_directed;
     IndexGraph.CalcEdgesWeight := town_weight |}.

(** A search in the town from the middle of road 0 to the middle of
    road 1. *)
Definition trip : t :=
  new kInvalidId town (rp 0 2) (rp 1 1).

(** A search whose start and finish are the same point. *)
Definition stay : t :=
  new kInvalidId town (rp 0 2) (rp 0 2).

(** A closed road, feature 7, of six points: its first and its last point
    are the only joint, so that both neighbours of a point inside it are
    that joint. *)
Definition ring_road (featureId : uint32_t) : RoadGeometry :=
  match word.unsigned featureId with
  | 7 => mkRoadGeometry true false [(0, 0); (1, 0); (2, 1); (1, 2); (0, 1); (0, 0)]%Q
  | _ => mkRoadGeometry false false []
  end.

Definition ring_points (jointId : Joint.Id) : list RoadPoint :=
  match word.unsigned jointId with
  | 0 => [rp 7 0; rp 7 5]
  | _ => []
  end.

Definition ring_joint (p : RoadPoint) : Joint.Id :=
  match word.unsigned (GetFeatureId p), word.unsigned (GetPointId p) with
  | 7, 0 | 7, 5 => u32 0
  | _, _ => kInvalidId
  end.

Definition ring_neighbors (p : RoadPoint) (isOutgoing : bool) : list JointEdge :=
  match word.unsigned (GetFeatureId p), word.unsigned (GetPointId p) with
  | 7, 2 => [edge 0 12; edge 0 18]
  | 7, 3 => [edge 0 18; edge 0 12]
  | _, _ => []
  end.

Definition ring : IndexGraph.t :=
  {| IndexGraph.GetNumJoints := u32 1;
     IndexGraph.GetJointId := ring_joint;
     IndexGraph.GetRoad := ring_road;
     IndexGraph.JointLiesOnRoad :=
       fun jointId featureId =>
         existsb (fun p => word.eqb (GetFeatureId p) featureId) (ring_points jointId);
     IndexGraph.ForEachPoint := ring_points;
     IndexGraph.EdgesList := fun _ _ => [];
     IndexGraph.NeighboringEdges := ring_neighbors;
     IndexGraph.DirectedEdgeWeight :=
       fun featureId pointFrom pointTo _ =>
         if IsRoad (ring_road featureId)
         then Some (town_weight (ring_road featureId) pointFrom pointTo)
         else None;
     IndexGraph.CalcEdgesWeight := town_weight |}.

(** A search on the closed road, from its point 2 to its point 3. *)
Definition lap : t :=
  new kInvalidId ring (rp 7 2) (rp 7 3).

End Examples.

(** ** Coordinates of a node *)

Module m2.
(** [m2::PointD]. *)
Record PointD : Type := mkPointD {
  x : double;
  y : double
}.
End m2.

(** The two [IndexGraph::GetPoint], of a road point and of a joint, which
    [IndexGraphStarter::GetPoint] calls; index_graph.hpp is missing. *)
Record GraphPoints : Type := mkGraphPoints {
  GetPoint_of_RoadPoint : RoadPoint -> m2.PointD;
  GetPoint_of_Joint : Joint.Id -> m2.PointD
}.

(** [IndexGraphStarter::GetPoint]. *)
Definition GetPoint (points : GraphPoints) (s : t) (jointId : Joint.Id) : m2.PointD :=
  if word.eqb jointId (m_fakeId (m_start s))
  then GetPoint_of_RoadPoint points (m_point (m_start s))
  else if word.eqb jointId (m_fakeId (m_finish s))
  then GetPoint_of_RoadPoint points (m_point (m_finish s))
  else GetPoint_of_Joint points jointId.

(** ** Further notions *)

(** The call of the estimator that weighs a pair of points. *)
Definition call_of (s : t) (c : RoadPoint * RoadPoint) : EstimatorCall :=
  (IndexGraph.GetRoad (m_graph s) (GetFeatureId (fst c)),
   GetPointId (fst c), GetPointId (snd c)).

(** From [p] to [q] the road is the same and the offset grows by [delta]. *)
Definition step (delta : Z) (p q : RoadPoint) : Prop :=
  GetFeatureId q = GetFeatureId p /\
  word.unsigned (GetPointId q) = word.unsigned (GetPointId p) + delta.

(** Every point of the list is one [step] after the point before it. *)
Fixpoint steps (delta : Z) (points : list RoadPoint) : Prop :=
  match points with
  | [] => True
  | p :: rest =>
      match rest with
      | [] => True
      | q :: _ => step delta p q /\ steps delta rest
      end
  end.

(** The sum of the distances, in offsets, between the two points of each
    segment. *)
Definition offsets_walked (segs : list (RoadPoint * RoadPoint)) : Z :=
  fold_right
    (fun seg n =>
       Z.abs (word.unsigned (GetPointId (snd seg)) - word.unsigned (GetPointId (fst seg))) + n)
    0 segs.

(** ** The path of a text (yg/text_path.cpp) *)

Module yg.

Section TextPath.

(** [size_t] is a machine word of the width of the platform. *)
Context {width : Z} {size_t : word.word width}.

(** Whether [ASSERT] is compiled in: the macro is defined in a header that
    is missing, and checks in debug builds only. *)
Variable assertions : bool.

(** [yg::TextPath]: the array [m_arr] points to, the number [m_size] of
    its points that make the path, and the direction of reading. *)
Record TextPath : Type := mkTextPath {
  m_arr : list m2.PointD;
  m_size : size_t;
  m_reverse : bool
}.

(** What a read of the path gives: a point of the array, the failure of an
    [ASSERT], or a read outside the array, which C++ leaves undefined. *)
Inductive Read : Type :=
| Point (pt : m2.PointD)
| AssertionFailed
| OutsideArray.

(** [m_arr[index]]. *)
Definition subscript (arr : list m2.PointD) (index : size_t) : Read :=
  match nth_error arr (Z.to_nat (word.unsigned index)) with
  | Some pt => Point pt
  | None => OutsideArray
  end.

(** [TextPath::size]. *)
Definition size (p : TextPath) : size_t := m_size p.

(** [TextPath::get]. *)
Definition get (p : TextPath) (i : size_t) : Read :=
  if assertions && negb (word.ltu i (m_size p)) then AssertionFailed
  else
    subscript (m_arr p)
      (if m_reverse p then word.sub (word.sub (m_size p) i) (word.of_Z 1) else i).

(** [TextPath::operator[]]. *)
Definition at_ (p : TextPath) (i : size_t) : Read := get p i.

End TextPath.

End yg.

(** * Properties *)

(** Two words are different: their values are. *)
Ltac words_differ :=
  let H := fresh "H" in
  intros H; apply (f_equal word.unsigned) in H; vm_compute in H; discriminate H.

Lemma RoadPoint_eqb_eq (a b : RoadPoint) : RoadPoint_eqb a b = true <-> a = b.
Proof.
  unfold RoadPoint_eqb. destruct a as [fa pa], b as [fb pb]. cbn [GetFeatureId GetPointId].
  destruct (word.eqb_spec fa fb) as [-> | Hf], (word.eqb_spec pa pb) as [-> | Hp];
    cbn [andb]; split; congruence.
Qed.

Lemma IsFake_true (j : FakeJoint) : IsFake j = true <-> m_jointId j = m_fakeId j.
Proof. unfold IsFake. destruct (word.eqb_spec (m_jointId j) (m_fakeId j)); split; congruence. Qed.

Lemma IsFake_false (j : FakeJoint) : IsFake j = false <-> m_jointId j <> m_fakeId j.
Proof. unfold IsFake. destruct (word.eqb_spec (m_jointId j) (m_fakeId j)); split; congruence. Qed.

(** ** Edges *)

Lemma arrival_fold (jointId : Joint.Id) (fakeJoint : FakeJoint)
    (startEdges edges : list JointEdge) :
  fold_left (arrival_step jointId fakeJoint) startEdges edges =
  edges ++ map (reversed fakeJoint)
             (filter (fun e => word.eqb (GetTarget e) jointId) startEdges).
Proof.
  revert edges. induction startEdges as [| e rest IH]; intros edges; cbn [fold_left filter].
  - now rewrite app_nil_r.
  - rewrite IH. unfold arrival_step.
    destruct (word.eqb (GetTarget e) jointId); cbn [map]; [| reflexivity].
    now rewrite <- app_assoc.
Qed.

Lemma GetArrivalFakeEdges_app (s : t) (jointId : Joint.Id) (fakeJoint : FakeJoint)
    (isOutgoing : bool) (edges : list JointEdge) :
  GetArrivalFakeEdges s jointId fakeJoint isOutgoing edges =
  edges ++ GetArrivalFakeEdges s jointId fakeJoint isOutgoing [].
Proof.
  unfold GetArrivalFakeEdges.
  destruct (negb (IsFake fakeJoint)); [now rewrite app_nil_r |].
  destruct (negb (IndexGraph.JointLiesOnRoad _ _ _)); [now rewrite app_nil_r |].
  now rewrite !arrival_fold.
Qed.

Lemma GetArrivalFakeEdges_length (s : t) (jointId : Joint.Id) (fakeJoint : FakeJoint)
    (isOutgoing : bool) :
  (length (GetArrivalFakeEdges s jointId fakeJoint isOutgoing [])
   <= length (hits s jointId fakeJoint (negb isOutgoing)))%nat.
Proof.
  unfold GetArrivalFakeEdges, hits.
  destruct (negb (IsFake fakeJoint)); [cbn; lia |].
  destruct (negb (IndexGraph.JointLiesOnRoad _ _ _)); [cbn; lia |].
  rewrite arrival_fold. unfold IndexGraph.GetNeighboringEdges.
  cbn [app]. now rewrite length_map.
Qed.

(** C6, as the code has it.  Arrival edges: nothing is added for an endpoint
    whose resolved identifier is not its own reserved identifier, be it
    that of a real joint or, for the finish of a search from a point to
    itself, that of the start; nor for a joint that is not on the road of
    the endpoint.  Otherwise the neighbouring edges of the endpoint's point
    in the opposite direction whose target is the joint are added, each
    turned into an edge to the endpoint's resolved identifier with the
    weight it had. *)
Theorem GetArrivalFakeEdges_spec (s : t) (jointId : Joint.Id) (fakeJoint : FakeJoint)
    (isOutgoing : bool) (edges : list JointEdge) :
  (m_jointId fakeJoint <> m_fakeId fakeJoint ->
   GetArrivalFakeEdges s jointId fakeJoint isOutgoing edges = edges) /\
  (IndexGraph.JointLiesOnRoad (m_graph s) jointId (GetFeatureId (m_point fakeJoint)) = false ->
   GetArrivalFakeEdges s jointId fakeJoint isOutgoing edges = edges) /\
  (m_jointId fakeJoint = m_fakeId fakeJoint ->
   IndexGraph.JointLiesOnRoad (m_graph s) jointId (GetFeatureId (m_point fakeJoint)) = true ->
   GetArrivalFakeEdges s jointId fakeJoint isOutgoing edges =
   edges ++ map (reversed fakeJoint) (hits s jointId fakeJoint (negb isOutgoing))).
Proof.
  unfold GetArrivalFakeEdges, hits. repeat split.
  - intros H. apply IsFake_false in H. now rewrite H.
  - intros H. rewrite H. now destruct (negb (IsFake fakeJoint)).
  - intros H L. apply IsFake_true in H. rewrite H, L. cbn [negb].
    now rewrite arrival_fold.
Qed.

Lemma GetArrivalFakeEdges_spec_witness :
  GetArrivalFakeEdges Examples.trip (Examples.u32 1) (m_start Examples.trip) true
    [Examples.edge 2 12]
  = [Examples.edge 2 12; Examples.edge 3 10].
Proof.
  destruct (GetArrivalFakeEdges_spec Examples.trip (Examples.u32 1)
              (m_start Examples.trip) true [Examples.edge 2 12]) as (_ & _ & H).
  rewrite H; reflexivity.
Defined.

(** C6, as the specification has it, fails for the finish of a search from
    a point to itself: the point is on no joint and the finish resolved to
    the reserved identifier of the start, which is no joint of the network;
    joint 0 is on the road of the finish and the point has a neighbouring
    edge to it; yet nothing is added, because the finish did not resolve to
    its own reserved identifier. *)
Lemma GetArrivalFakeEdges_same_point :
  IndexGraph.GetJointId Examples.town (m_point (m_finish Examples.stay))
  = Examples.kInvalidId /\
  m_jointId (m_finish Examples.stay) = IndexGraph.GetNumJoints Examples.town /\
  (forall p, In p (IndexGraph.ForEachPoint Examples.town (m_jointId (m_finish Examples.stay)))
             -> False) /\
  IndexGraph.JointLiesOnRoad (m_graph Examples.stay) (Examples.u32 0)
    (GetFeatureId (m_point (m_finish Examples.stay))) = true /\
  hits Examples.stay (Examples.u32 0) (m_finish Examples.stay) (negb true)
  = [Examples.edge 0 10] /\
  GetArrivalFakeEdges Examples.stay (Examples.u32 0) (m_finish Examples.stay) true [] = [] /\
  GetArrivalFakeEdges Examples.stay (Examples.u32 0) (m_finish Examples.stay) true []
  <> [] ++ map (reversed (m_finish Examples.stay))
             (hits Examples.stay (Examples.u32 0) (m_finish Examples.stay) (negb true)).
Proof.
  repeat split.
  - intros p H. vm_compute in H. exact H.
  - intros H. vm_compute in H. discriminate H.
Qed.

Lemma GetFakeEdges_eq (s : t) (from to : FakeJoint) (isOutgoing : bool)
    (edges : list JointEdge) :
  GetFakeEdges s from to isOutgoing edges =
  edges ++ IndexGraph.NeighboringEdges (m_graph s) (m_point from) isOutgoing
        ++ (if IsFake to
               && word.eqb (GetFeatureId (m_point from)) (GetFeatureId (m_point to))
            then direct s from to isOutgoing else []).
Proof.
  unfold GetFakeEdges, IndexGraph.GetNeighboringEdges, IndexGraph.GetDirectedEdge, direct.
  destruct (IsFake to && word.eqb _ _).
  - destruct (IndexGraph.DirectedEdgeWeight _ _ _ _ _).
    + now rewrite <- app_assoc.
    + now rewrite !app_nil_r.
  - now rewrite app_nil_r.
Qed.

(** C5.  The edges of a virtual endpoint: the neighbouring edges of its
    point and, only when the other endpoint is virtual too and on the same
    road, the directed edge between the two points, with the other
    endpoint's resolved identifier as its target; equal points are no
    exception.  No other edge is produced, and [GetEdgesList] answers with
    these edges for the reserved identifiers. *)
Theorem GetFakeEdges_spec (s : t) (from to : FakeJoint) (isOutgoing : bool)
    (edges : list JointEdge) :
  let own := IndexGraph.NeighboringEdges (m_graph s) (m_point from) isOutgoing in
  let together :=
    m_jointId to = m_fakeId to /\
    GetFeatureId (m_point from) = GetFeatureId (m_point to) in
  (together ->
   GetFakeEdges s from to isOutgoing edges = edges ++ own ++ direct s from to isOutgoing) /\
  (m_jointId to = m_fakeId to -> m_point from = m_point to ->
   GetFakeEdges s from to isOutgoing edges = edges ++ own ++ direct s from to isOutgoing) /\
  (~ together -> GetFakeEdges s from to isOutgoing edges = edges ++ own) /\
  (forall e, In e (GetFakeEdges s from to isOutgoing []) ->
     In e own \/
     (together /\ GetTarget e = m_jointId to /\
      IndexGraph.DirectedEdgeWeight (m_graph s) (GetFeatureId (m_point from))
        (GetPointId (m_point from)) (GetPointId (m_point to)) isOutgoing
      = Some (GetWeight e))) /\
  GetEdgesList s (m_fakeId (m_start s)) isOutgoing edges
  = GetFakeEdges s (m_start s) (m_finish s) isOutgoing [] /\
  (m_fakeId (m_finish s) <> m_fakeId (m_start s) ->
   GetEdgesList s (m_fakeId (m_finish s)) isOutgoing edges
   = GetFakeEdges s (m_finish s) (m_start s) isOutgoing []).
Proof.
  intros own together.
  assert (Hc : IsFake to
               && word.eqb (GetFeatureId (m_point from)) (GetFeatureId (m_point to)) = true
               <-> together).
  { unfold together. rewrite andb_true_iff, IsFake_true.
    destruct (word.eqb_spec (GetFeatureId (m_point from)) (GetFeatureId (m_point to)));
      intuition congruence. }
  repeat split.
  - intros H. rewrite GetFakeEdges_eq. apply Hc in H. now rewrite H.
  - intros Hf Hp. rewrite GetFakeEdges_eq.
    assert (H : together) by (split; [assumption | now rewrite Hp]).
    apply Hc in H. now rewrite H.
  - intros H. rewrite GetFakeEdges_eq.
    destruct (IsFake to && word.eqb _ _); [exfalso; apply H, Hc; reflexivity |].
    now rewrite app_nil_r.
  - intros e. rewrite GetFakeEdges_eq. cbn [app]. intros He.
    apply in_app_or in He. destruct He as [He | He]; [now left | right].
    destruct (IsFake to && word.eqb _ _); [| contradiction].
    split; [apply Hc; reflexivity |].
    unfold direct in He.
    destruct (IndexGraph.DirectedEdgeWeight _ _ _ _ _); [| contradiction].
    destruct He as [<- | []]. now cbn.
  - unfold GetEdgesList. now rewrite word.eqb_eq.
  - intros H. unfold GetEdgesList. rewrite (word.eqb_ne _ _ H). now rewrite word.eqb_eq.
Qed.

Lemma GetFakeEdges_spec_witness :
  GetFakeEdges Examples.lap (m_start Examples.lap) (m_finish Examples.lap) true []
  = [Examples.edge 0 12; Examples.edge 0 18; Examples.edge 2 6].
Proof.
  destruct (GetFakeEdges_spec Examples.lap (m_start Examples.lap) (m_finish Examples.lap)
              true []) as (H & _).
  rewrite H; [reflexivity | split; reflexivity].
Defined.

(** When the start and the finish are one point that is on no joint, the
    finish resolves to the identifier of the start and is not virtual
    itself: the edges of that identifier are the neighbouring edges of the
    point, without an edge from the point to itself. *)
Example GetEdgesList_same_point :
  IsFake (m_start Examples.stay) = true /\
  IsFake (m_finish Examples.stay) = false /\
  GetEdgesList Examples.stay (m_jointId (m_finish Examples.stay)) true []
  = [Examples.edge 0 10; Examples.edge 1 10].
Proof. repeat split. Qed.

Lemma GetEdgesList_real (s : t) (jointId : Joint.Id) (isOutgoing : bool)
    (edges : list JointEdge) :
  jointId <> m_fakeId (m_start s) ->
  jointId <> m_fakeId (m_finish s) ->
  GetEdgesList s jointId isOutgoing edges =
  IndexGraph.EdgesList (m_graph s) jointId isOutgoing
  ++ GetArrivalFakeEdges s jointId (m_start s) isOutgoing []
  ++ GetArrivalFakeEdges s jointId (m_finish s) isOutgoing [].
Proof.
  intros Hs Hf. unfold GetEdgesList.
  rewrite (word.eqb_ne _ _ Hs), (word.eqb_ne _ _ Hf).
  unfold IndexGraph.GetEdgesList. cbn [app].
  rewrite (GetArrivalFakeEdges_app s jointId (m_finish s)).
  rewrite (GetArrivalFakeEdges_app s jointId (m_start s)).
  now rewrite <- app_assoc.
Qed.

(** C4, as the code has it.  For a real joint the answer of [GetEdgesList]
    is the network's own edge list followed by the arrival edges of the
    start and by those of the finish; an endpoint contributes at most one
    edge for each neighbouring edge of its point, in the opposite direction,
    that leads to the joint, so at most two edges are added when neither
    endpoint has two such neighbouring edges; the answer is never shorter
    than the network's own list. *)
Theorem GetEdgesList_real_joint (s : t) (jointId : Joint.Id) (isOutgoing : bool)
    (edges : list JointEdge) :
  jointId <> m_fakeId (m_start s) ->
  jointId <> m_fakeId (m_finish s) ->
  let own := IndexGraph.EdgesList (m_graph s) jointId isOutgoing in
  let arrivals := fun fakeJoint => GetArrivalFakeEdges s jointId fakeJoint isOutgoing [] in
  GetEdgesList s jointId isOutgoing edges
  = own ++ arrivals (m_start s) ++ arrivals (m_finish s) /\
  (length (arrivals (m_start s))
   <= length (hits s jointId (m_start s) (negb isOutgoing)))%nat /\
  (length (arrivals (m_finish s))
   <= length (hits s jointId (m_finish s) (negb isOutgoing)))%nat /\
  ((length (hits s jointId (m_start s) (negb isOutgoing)) <= 1)%nat ->
   (length (hits s jointId (m_finish s) (negb isOutgoing)) <= 1)%nat ->
   (length (arrivals (m_start s) ++ arrivals (m_finish s)) <= 2)%nat) /\
  (length own <= length (GetEdgesList s jointId isOutgoing edges))%nat.
Proof.
  intros Hs Hf own arrivals.
  pose proof (GetArrivalFakeEdges_length s jointId (m_start s) isOutgoing) as Ls.
  pose proof (GetArrivalFakeEdges_length s jointId (m_finish s) isOutgoing) as Lf.
  rewrite (GetEdgesList_real s jointId isOutgoing edges Hs Hf).
  fold own. fold (arrivals (m_start s)) in *. fold (arrivals (m_finish s)) in *.
  repeat split; try assumption.
  - intros. rewrite length_app. lia.
  - rewrite !length_app. lia.
Qed.

Lemma GetEdgesList_real_joint_witness :
  GetEdgesList Examples.trip (Examples.u32 1) true []
  = [Examples.edge 0 20; Examples.edge 0 6; Examples.edge 2 12]
    ++ [Examples.edge 3 10] ++ [Examples.edge 4 4].
Proof.
  refine (proj1 (GetEdgesList_real_joint Examples.trip (Examples.u32 1) true [] _ _));
    words_differ.
Defined.

(** C4, as the specification has it, fails on a closed road: both
    neighbouring edges of a point inside the road lead to its only joint, and
    the start and the finish add two edges each. *)
Lemma GetEdgesList_four_arrivals :
  Examples.u32 0 <> m_fakeId (m_start Examples.lap) /\
  Examples.u32 0 <> m_fakeId (m_finish Examples.lap) /\
  ~ (exists added : list JointEdge,
       GetEdgesList Examples.lap (Examples.u32 0) true []
       = IndexGraph.EdgesList (m_graph Examples.lap) (Examples.u32 0) true ++ added /\
       (length added <= 2)%nat).
Proof.
  split; [| split].
  - words_differ.
  - words_differ.
  - intros (added & E & L).
    apply (f_equal (@length JointEdge)) in E. rewrite length_app in E.
    change (length (GetEdgesList Examples.lap (Examples.u32 0) true [])) with 4%nat in E.
    change (length (IndexGraph.EdgesList (m_graph Examples.lap) (Examples.u32 0) true))
      with 0%nat in E.
    lia.
Qed.

(** C7.  When the start and the finish are the same point, the finish
    resolves to the identifier computed for the start: the joint of the
    point if it has one, the reserved identifier of the start, which is the
    number of joints, otherwise.  The number of joints of the network is
    not the invalid identifier itself. *)
Theorem same_point_same_joint (kInvalidId : Joint.Id) (graph : IndexGraph.t)
    (startPoint finishPoint : RoadPoint) :
  IndexGraph.GetNumJoints graph <> kInvalidId ->
  startPoint = finishPoint ->
  let s := new kInvalidId graph startPoint finishPoint in
  m_jointId (m_finish s) = m_jointId (m_start s) /\
  m_fakeId (m_start s) = IndexGraph.GetNumJoints graph /\
  (IndexGraph.GetJointId graph startPoint <> kInvalidId ->
   m_jointId (m_start s) = IndexGraph.GetJointId graph startPoint) /\
  (IndexGraph.GetJointId graph startPoint = kInvalidId ->
   m_jointId (m_start s) = IndexGraph.GetNumJoints graph).
Proof.
  intros Hn Hp s. subst s. unfold new, newFakeJoint, CalcJointId.
  cbn [m_jointId m_fakeId m_start m_finish].
  apply RoadPoint_eqb_eq in Hp. rewrite Hp.
  destruct (word.eqb_spec (IndexGraph.GetJointId graph startPoint) kInvalidId) as [E | E].
  - rewrite (word.eqb_ne _ _ Hn). repeat split; congruence.
  - rewrite (word.eqb_ne _ _ E). repeat split; congruence.
Qed.

Lemma same_point_same_joint_witness :
  m_jointId (m_finish Examples.stay) = m_jointId (m_start Examples.stay) /\
  m_jointId (m_start Examples.stay) = IndexGraph.GetNumJoints Examples.town.
Proof.
  destruct (same_point_same_joint Examples.kInvalidId Examples.town
              (Examples.rp 0 2) (Examples.rp 0 2)) as (E & _ & _ & N).
  - words_differ.
  - reflexivity.
  - split; [exact E | apply N; reflexivity].
Defined.

(** ** The common road of two joints *)

Section FindPoints.

Variable s : t.

Lemma qualifies_Qualifies (c : RoadPoint * RoadPoint) :
  qualifies s c = true <-> Qualifies s c.
Proof.
  unfold qualifies, Qualifies. destruct c as [rp0 rp1]. cbn [fst snd].
  set (road := IndexGraph.GetRoad (m_graph s) (GetFeatureId rp0)).
  unfold word.gtu. rewrite word.unsigned_ltu.
  destruct (word.eqb_spec (GetFeatureId rp0) (GetFeatureId rp1)) as [E | E];
    cbn [andb]; [| intuition congruence].
  destruct (IsRoad road); cbn [andb]; [| intuition congruence].
  destruct (IsOneWay road); cbn [andb negb].
  - rewrite negb_true_iff, Z.ltb_ge. intuition.
  - intuition congruence.
Qed.

Lemma visit_qualifies (rp0 rp1 : RoadPoint) (l : Locals) :
  visit s rp0 rp1 l = if qualifies s (rp0, rp1) then consider s rp0 rp1 l else l.
Proof.
  unfold visit, qualifies. cbn [fst snd].
  destruct (word.eqb (GetFeatureId rp0) (GetFeatureId rp1)); cbn [negb andb]; [| reflexivity].
  destruct (IsRoad _); cbn [negb andb]; [| reflexivity].
  now destruct (IsOneWay _ && word.gtu _ _).
Qed.

Lemma inner_fold (x : RoadPoint) (ys : list RoadPoint) (l : Locals) :
  fold_left (fun l rp1 => visit s x rp1 l) ys l
  = fold_left (fun l c => visit s (fst c) (snd c) l) (map (fun y => (x, y)) ys) l.
Proof.
  revert l. induction ys as [| y ys IH]; intros l; cbn [fold_left map]; [reflexivity |].
  apply IH.
Qed.

(** The nested visits are one pass over the pairs, and only the pairs that
    qualify change the variables. *)
Lemma nested_fold (xs ys : list RoadPoint) (l : Locals) :
  fold_left (fun l rp0 => fold_left (fun l rp1 => visit s rp0 rp1 l) ys l) xs l
  = fold_left (fun l c => visit s (fst c) (snd c) l) (list_prod xs ys) l.
Proof.
  revert l. induction xs as [| x xs IH]; intros l; cbn [fold_left list_prod]; [reflexivity |].
  now rewrite fold_left_app, IH, inner_fold.
Qed.

Lemma filtered_fold (cs : list (RoadPoint * RoadPoint)) (l : Locals) :
  fold_left (fun l c => visit s (fst c) (snd c) l) cs l
  = fold_left (fun l c => consider s (fst c) (snd c) l) (filter (qualifies s) cs) l.
Proof.
  revert l. induction cs as [| [rp0 rp1] cs IH]; intros l; cbn [fold_left filter fst snd];
    [reflexivity |].
  rewrite visit_qualifies. destruct (qualifies s (rp0, rp1)); cbn [fold_left fst snd]; apply IH.
Qed.

Lemma FindPoints_locals_candidates (jointId0 jointId1 : Joint.Id) (r0 r1 : RoadPoint) :
  FindPoints_locals s jointId0 jointId1 r0 r1
  = fold_left (fun l c => consider s (fst c) (snd c) l) (candidates s jointId0 jointId1)
      (mkLocals false (-1) r0 r1 []).
Proof.
  unfold FindPoints_locals, candidates, pairs. now rewrite nested_fold, filtered_fold.
Qed.

Lemma compute_minWeight_kept (cs : list (RoadPoint * RoadPoint)) (l : Locals) :
  kept s cs l ->
  let l' := compute_minWeight s l in
  found l' = true /\ result0 l' = result0 l /\ result1 l' = result1 l /\
  minWeight l' = pair_weight s (result0 l, result1 l).
Proof.
  intros (F & (before & after & E & _) & One & Two). unfold compute_minWeight.
  destruct (Qlt_le_dec (minWeight l) 0) as [Neg | Pos]; cbn.
  - now rewrite F.
  - repeat split; try assumption.
    destruct (Nat.eq_dec (length cs) 1) as [L | L].
    + destruct (One L) as [W _]. rewrite W in Pos. now vm_compute in Pos.
    + apply Two. subst cs. rewrite length_app in *. cbn [length] in *. lia.
Qed.

Lemma consider_first (c : RoadPoint * RoadPoint) (r0 r1 : RoadPoint) :
  kept s [c] (consider s (fst c) (snd c) (mkLocals false (-1) r0 r1 [])).
Proof.
  destruct c as [rp0 rp1]. unfold consider, kept. cbn.
  repeat split; try lia.
  exists [], []. repeat split; intros c [].
Qed.

Lemma consider_next (cs : list (RoadPoint * RoadPoint)) (c : RoadPoint * RoadPoint)
    (l : Locals) :
  kept s cs l -> kept s (cs ++ [c]) (consider s (fst c) (snd c) l).
Proof.
  intros K. pose proof (compute_minWeight_kept cs l K) as (F' & R0 & R1 & W).
  destruct K as (F & (before & after & E & Hb & Ha) & _).
  assert (Hlen : (2 <= length (cs ++ [c]))%nat).
  { subst cs. rewrite !length_app. cbn [length]. lia. }
  unfold consider. rewrite F.
  set (l' := compute_minWeight s l) in *.
  unfold estimate. cbn [minWeight found result0 result1 calls].
  rewrite W.
  change (IndexGraph.CalcEdgesWeight (m_graph s)
            (IndexGraph.GetRoad (m_graph s) (GetFeatureId (fst c)))
            (GetPointId (fst c)) (GetPointId (snd c)))
    with (pair_weight s c).
  destruct (Qlt_le_dec (pair_weight s c) (pair_weight s (result0 l, result1 l)))
    as [Less | More]; unfold kept; cbn [minWeight found result0 result1 calls].
  - rewrite <- surjective_pairing. split; [| split; [| split]].
    + assumption.
    + exists cs, []. repeat split; [| intros x []].
      intros x Hx. subst cs. apply in_app_or in Hx. destruct Hx as [Hx | [<- | Hx]].
      * eapply Qlt_trans; [exact Less | now apply Hb].
      * exact Less.
      * eapply Qlt_le_trans; [exact Less | now apply Ha].
    + lia.
    + intros _. split; [reflexivity |].
      intros N. now apply app_eq_nil in N as [_ N].
  - rewrite R0, R1. split; [| split; [| split]].
    + assumption.
    + exists before, (after ++ [c]). repeat split.
      * subst cs. now rewrite <- app_assoc.
      * assumption.
      * intros x Hx. apply in_app_or in Hx. destruct Hx as [Hx | [<- | []]];
          [now apply Ha | exact More].
    + lia.
    + intros _. split; [reflexivity |].
      intros N. now apply app_eq_nil in N as [_ N].
Qed.

Lemma considered_kept (cs : list (RoadPoint * RoadPoint)) (r0 r1 : RoadPoint) :
  cs <> [] ->
  kept s cs (fold_left (fun l c => consider s (fst c) (snd c) l) cs
             (mkLocals false (-1) r0 r1 [])).
Proof.
  induction cs as [| c cs IH] using rev_ind; intros N; [congruence |].
  rewrite fold_left_app. cbn [fold_left].
  destruct cs as [| c' cs'].
  - apply consider_first.
  - apply consider_next, IH. discriminate.
Qed.

Lemma filter_nil {A : Type} (f : A -> bool) (xs : list A) :
  filter f xs = [] <-> forall x, In x xs -> f x = false.
Proof.
  induction xs as [| x xs IH]; cbn [filter In]; [intuition |].
  destruct (f x) eqn:E; split.
  - discriminate.
  - intros H. specialize (H x (or_introl eq_refl)). congruence.
  - intros H y [<- | Hy]; [assumption | now apply IH].
  - intros H. apply IH. intros y Hy. apply H. now right.
Qed.

Lemma candidates_nil (jointId0 jointId1 : Joint.Id) :
  candidates s jointId0 jointId1 = [] <->
  forall rp0 rp1,
    In rp0 (ForEachPoint s jointId0) -> In rp1 (ForEachPoint s jointId1) ->
    ~ Qualifies s (rp0, rp1).
Proof.
  unfold candidates, pairs. rewrite filter_nil. split.
  - intros H rp0 rp1 H0 H1 Q. apply qualifies_Qualifies in Q.
    rewrite (H (rp0, rp1)) in Q; [discriminate | now apply in_prod].
  - intros H [rp0 rp1] Hin. apply in_prod_iff in Hin as [H0 H1].
    destruct (qualifies s (rp0, rp1)) eqn:Q; [| reflexivity].
    apply qualifies_Qualifies in Q. now destruct (H rp0 rp1 H0 H1).
Qed.

Lemma FindPoints_none (jointId0 jointId1 : Joint.Id) (r0 r1 : RoadPoint) :
  candidates s jointId0 jointId1 = [] ->
  FindPointsWithCommonFeature s jointId0 jointId1 r0 r1
  = Thrown (CantFindCommonFeature jointId0 jointId1).
Proof.
  intros E. unfold FindPointsWithCommonFeature.
  rewrite FindPoints_locals_candidates, E. reflexivity.
Qed.

Lemma FindPoints_some (jointId0 jointId1 : Joint.Id) (r0 r1 : RoadPoint) :
  candidates s jointId0 jointId1 <> [] ->
  let l := FindPoints_locals s jointId0 jointId1 r0 r1 in
  kept s (candidates s jointId0 jointId1) l /\
  FindPointsWithCommonFeature s jointId0 jointId1 r0 r1 = Returned (result0 l, result1 l).
Proof.
  intros N l. assert (K : kept s (candidates s jointId0 jointId1) l).
  { subst l. rewrite FindPoints_locals_candidates. now apply considered_kept. }
  split; [exact K |].
  unfold FindPointsWithCommonFeature. fold l. destruct K as (F & _). now rewrite F.
Qed.

(** C2.  When some pair of points qualifies, the pair returned is a
    qualifying pair of least weight, and of the pairs of least weight the
    one visited first: every qualifying pair visited before it is strictly
    heavier, every one visited after it is at least as heavy.  The estimator
    is not called when one pair only qualifies, and it is called when there
    are more. *)
Theorem FindPointsWithCommonFeature_lightest (jointId0 jointId1 : Joint.Id)
    (r0 r1 : RoadPoint) :
  candidates s jointId0 jointId1 <> [] ->
  exists (rp0 rp1 : RoadPoint) (before after : list (RoadPoint * RoadPoint)),
    FindPointsWithCommonFeature s jointId0 jointId1 r0 r1 = Returned (rp0, rp1) /\
    candidates s jointId0 jointId1 = before ++ (rp0, rp1) :: after /\
    (forall c, In c (candidates s jointId0 jointId1) ->
       (pair_weight s (rp0, rp1) <= pair_weight s c)%Q) /\
    (forall c, In c before -> (pair_weight s (rp0, rp1) < pair_weight s c)%Q) /\
    (forall c, In c after -> (pair_weight s (rp0, rp1) <= pair_weight s c)%Q) /\
    (length (candidates s jointId0 jointId1) = 1%nat ->
     calls (FindPoints_locals s jointId0 jointId1 r0 r1) = []) /\
    ((2 <= length (candidates s jointId0 jointId1))%nat ->
     calls (FindPoints_locals s jointId0 jointId1 r0 r1) <> []).
Proof.
  intros N. destruct (FindPoints_some jointId0 jointId1 r0 r1 N) as (K & R).
  set (l := FindPoints_locals s jointId0 jointId1 r0 r1) in *.
  destruct K as (_ & (before & after & E & Hb & Ha) & One & Two).
  exists (result0 l), (result1 l), before, after.
  split; [exact R |]. split; [exact E |]. split; [| split; [exact Hb | split; [exact Ha |]]].
  - intros c Hc. rewrite E in Hc. apply in_app_or in Hc. destruct Hc as [Hc | [<- | Hc]].
    + now apply Qlt_le_weak, Hb.
    + apply Qle_refl.
    + now apply Ha.
  - split; [intros L; now apply One | intros L; now apply Two].
Qed.

(** C3.  The exception is thrown exactly when no pair of points of the two
    joints qualifies, and it carries the two joints; no other exception
    leaves the function.  In particular it is thrown when every road the
    two joints share is one-way and leads from the second joint to the
    first. *)
Theorem FindPointsWithCommonFeature_throws (jointId0 jointId1 : Joint.Id)
    (r0 r1 : RoadPoint) :
  (FindPointsWithCommonFeature s jointId0 jointId1 r0 r1
   = Thrown (CantFindCommonFeature jointId0 jointId1)
   <->
   forall rp0 rp1,
     In rp0 (ForEachPoint s jointId0) -> In rp1 (ForEachPoint s jointId1) ->
     ~ Qualifies s (rp0, rp1)) /\
  (forall e,
     FindPointsWithCommonFeature s jointId0 jointId1 r0 r1 = Thrown e ->
     e = CantFindCommonFeature jointId0 jointId1) /\
  ((forall rp0 rp1,
      In rp0 (ForEachPoint s jointId0) -> In rp1 (ForEachPoint s jointId1) ->
      GetFeatureId rp0 = GetFeatureId rp1 ->
      IsOneWay (IndexGraph.GetRoad (m_graph s) (GetFeatureId rp0)) = true /\
      word.unsigned (GetPointId rp1) < word.unsigned (GetPointId rp0)) ->
   FindPointsWithCommonFeature s jointId0 jointId1 r0 r1
   = Thrown (CantFindCommonFeature jointId0 jointId1)).
Proof.
  split; [| split].
  - rewrite <- candidates_nil. split.
    + intros T. destruct (candidates s jointId0 jointId1) eqn:E; [reflexivity |].
      destruct (FindPoints_some jointId0 jointId1 r0 r1) as (_ & R); [congruence |].
      congruence.
    + apply FindPoints_none.
  - intros e. unfold FindPointsWithCommonFeature.
    destruct (negb (found _)); congruence.
  - intros H. apply FindPoints_none, candidates_nil.
    intros rp0 rp1 H0 H1 (Ef & _ & Q). cbn [fst snd] in *.
    destruct (H rp0 rp1 H0 H1 Ef) as (O & L). specialize (Q O). lia.
Qed.

End FindPoints.

Lemma FindPointsWithCommonFeature_lightest_witness :
  exists (rp0 rp1 : RoadPoint) (before after : list (RoadPoint * RoadPoint)),
    FindPointsWithCommonFeature Examples.trip (Examples.u32 0) (Examples.u32 1)
      RoadPoint_default RoadPoint_default = Returned (rp0, rp1) /\
    candidates Examples.trip (Examples.u32 0) (Examples.u32 1)
    = before ++ (rp0, rp1) :: after /\
    (forall c, In c (candidates Examples.trip (Examples.u32 0) (Examples.u32 1)) ->
       (pair_weight Examples.trip (rp0, rp1) <= pair_weight Examples.trip c)%Q) /\
    (forall c, In c before ->
       (pair_weight Examples.trip (rp0, rp1) < pair_weight Examples.trip c)%Q) /\
    (forall c, In c after ->
       (pair_weight Examples.trip (rp0, rp1) <= pair_weight Examples.trip c)%Q) /\
    (length (candidates Examples.trip (Examples.u32 0) (Examples.u32 1)) = 1%nat ->
     calls (FindPoints_locals Examples.trip (Examples.u32 0) (Examples.u32 1)
              RoadPoint_default RoadPoint_default) = []) /\
    ((2 <= length (candidates Examples.trip (Examples.u32 0) (Examples.u32 1)))%nat ->
     calls (FindPoints_locals Examples.trip (Examples.u32 0) (Examples.u32 1)
              RoadPoint_default RoadPoint_default) <> []).
Proof.
  apply (FindPointsWithCommonFeature_lightest Examples.trip).
  intros H. vm_compute in H. discriminate H.
Defined.

(** The lighter of the two roads from joint 0 to joint 1 of the town is
    road 2, and the estimator is called once for each of the two. *)
Example FindPoints_town_0_1 :
  FindPointsWithCommonFeature Examples.trip (Examples.u32 0) (Examples.u32 1)
    RoadPoint_default RoadPoint_default
  = Returned (Examples.rp 2 0, Examples.rp 2 2) /\
  length (calls (FindPoints_locals Examples.trip (Examples.u32 0) (Examples.u32 1)
                   RoadPoint_default RoadPoint_default)) = 2%nat.
Proof. split; reflexivity. Qed.

(** One road only leads from joint 1 to joint 2: the estimator is not
    called. *)
Example FindPoints_town_1_2 :
  FindPointsWithCommonFeature Examples.trip (Examples.u32 1) (Examples.u32 2)
    RoadPoint_default RoadPoint_default
  = Returned (Examples.rp 1 0, Examples.rp 1 3) /\
  calls (FindPoints_locals Examples.trip (Examples.u32 1) (Examples.u32 2)
           RoadPoint_default RoadPoint_default) = [].
Proof. split; reflexivity. Qed.

(** The two roads that lead from joint 0 to itself weigh the same; the pair
    of points visited first is returned. *)
Example FindPoints_town_tie :
  candidates Examples.trip (Examples.u32 0) (Examples.u32 0)
  = [(Examples.rp 0 0, Examples.rp 0 0); (Examples.rp 2 0, Examples.rp 2 0)] /\
  (pair_weight Examples.trip (Examples.rp 0 0, Examples.rp 0 0)
   == pair_weight Examples.trip (Examples.rp 2 0, Examples.rp 2 0))%Q /\
  FindPointsWithCommonFeature Examples.trip (Examples.u32 0) (Examples.u32 0)
    RoadPoint_default RoadPoint_default
  = Returned (Examples.rp 0 0, Examples.rp 0 0).
Proof. repeat split. Qed.

Lemma FindPointsWithCommonFeature_throws_witness :
  FindPointsWithCommonFeature Examples.trip (Examples.u32 2) (Examples.u32 1)
    RoadPoint_default RoadPoint_default
  = Thrown (CantFindCommonFeature (Examples.u32 2) (Examples.u32 1)).
Proof.
  apply (FindPointsWithCommonFeature_throws Examples.trip).
  intros rp0 rp1 [<- | []] [<- | [<- | [<- | []]]].
  - words_differ.
  - words_differ.
  - intros _. split; reflexivity.
Defined.

(** ** From joints to road points *)

Lemma ascending_S (featureId : uint32_t) (from : Z) (n : nat) :
  ascending featureId from (S n)
  = mkRoadPoint featureId (word.of_Z (from + 1)) :: ascending featureId (from + 1) n.
Proof.
  unfold ascending. cbn [seq map]. rewrite <- seq_shift, map_map. f_equal.
  - do 2 f_equal. lia.
  - apply map_ext. intros k. do 2 f_equal. lia.
Qed.

Lemma descending_S (featureId : uint32_t) (from : Z) (n : nat) :
  descending featureId from (S n)
  = mkRoadPoint featureId (word.of_Z (from - 1)) :: descending featureId (from - 1) n.
Proof.
  unfold descending. cbn [seq map]. rewrite <- seq_shift, map_map. f_equal.
  - do 2 f_equal. lia.
  - apply map_ext. intros k. do 2 f_equal. lia.
Qed.

(** The forward loop adds the points from [pointId] up to, and without,
    [pointTo]. *)
Lemma loop_forward_spec (featureId pointId pointTo : uint32_t)
    (roadPoints : list RoadPoint) :
  loop_forward featureId pointId pointTo roadPoints
  = roadPoints
    ++ ascending featureId (word.unsigned pointId - 1)
         (Z.to_nat (word.unsigned pointTo - word.unsigned pointId)).
Proof.
  funelim (loop_forward featureId pointId pointTo roadPoints).
  - match goal with IH : loop_forward _ _ _ _ = _ ++ ascending _ _ _ |- _ => rewrite IH end.
    pose proof H as Lt. rewrite word.unsigned_ltu in Lt. apply Z.ltb_lt in Lt.
    pose proof (word.unsigned_range pointTo).
    pose proof (word.unsigned_range pointId).
    rewrite word.unsigned_add_nowrap; rewrite word.unsigned_of_Z_1; [| lia].
    replace (Z.to_nat (word.unsigned pointTo - word.unsigned pointId))
      with (S (Z.to_nat (word.unsigned pointTo - (word.unsigned pointId + 1)))) by lia.
    rewrite ascending_S, <- app_assoc. cbn [app].
    replace (word.unsigned pointId - 1 + 1) with (word.unsigned pointId) by lia.
    replace (word.unsigned pointId + 1 - 1) with (word.unsigned pointId) by lia.
    now rewrite word.of_Z_unsigned.
  - match goal with E : word.ltu _ _ = false |- _ =>
      pose proof E as Ge; rewrite word.unsigned_ltu in Ge; apply Z.ltb_ge in Ge end.
    replace (Z.to_nat (word.unsigned pointTo - word.unsigned pointId)) with 0%nat by lia.
    cbn. now rewrite app_nil_r.
Qed.

(** The backward loop adds the points from [pointId] down to, and without,
    [pointTo]. *)
Lemma loop_backward_spec (featureId pointId pointTo : uint32_t)
    (roadPoints : list RoadPoint) :
  loop_backward featureId pointId pointTo roadPoints
  = roadPoints
    ++ descending featureId (word.unsigned pointId + 1)
         (Z.to_nat (word.unsigned pointId - word.unsigned pointTo)).
Proof.
  funelim (loop_backward featureId pointId pointTo roadPoints).
  - match goal with IH : loop_backward _ _ _ _ = _ ++ descending _ _ _ |- _ => rewrite IH end.
    pose proof H as Gt. unfold word.gtu in Gt. rewrite word.unsigned_ltu in Gt.
    apply Z.ltb_lt in Gt.
    pose proof (word.unsigned_range pointTo).
    pose proof (word.unsigned_range pointId).
    rewrite word.unsigned_sub_nowrap; rewrite word.unsigned_of_Z_1; [| lia].
    replace (Z.to_nat (word.unsigned pointId - word.unsigned pointTo))
      with (S (Z.to_nat (word.unsigned pointId - 1 - word.unsigned pointTo))) by lia.
    rewrite descending_S, <- app_assoc. cbn [app].
    replace (word.unsigned pointId + 1 - 1) with (word.unsigned pointId) by lia.
    replace (word.unsigned pointId - 1 + 1) with (word.unsigned pointId) by lia.
    now rewrite word.of_Z_unsigned.
  - match goal with E : word.gtu _ _ = false |- _ =>
      pose proof E as Le; unfold word.gtu in Le; rewrite word.unsigned_ltu in Le;
      apply Z.ltb_ge in Le end.
    replace (Z.to_nat (word.unsigned pointId - word.unsigned pointTo)) with 0%nat by lia.
    cbn. now rewrite app_nil_r.
Qed.

Section Redress.

Variable s : t.

Lemma RedressRoute_body_returned (i : nat) (prevJoint nextJoint : Joint.Id)
    (seg : RoadPoint * RoadPoint) (roadPoints : list RoadPoint) :
  FindPointsWithCommonFeature s prevJoint nextJoint RoadPoint_default RoadPoint_default
  = Returned seg ->
  proper seg ->
  RedressRoute_body s i prevJoint nextJoint roadPoints
  = (Returned tt,
     roadPoints ++ (if (i =? 0)%nat then [fst seg] else []) ++ segment_points seg).
Proof.
  intros F P. destruct seg as [rp0 rp1]. unfold proper in P. cbn [fst snd] in *.
  unfold RedressRoute_body, bind, call. rewrite F.
  assert (Hne : word.unsigned (GetPointId rp0) <> word.unsigned (GetPointId rp1)).
  { intros E. now apply P, word.unsigned_inj. }
  pose proof (word.unsigned_range (GetPointId rp0)).
  pose proof (word.unsigned_range (GetPointId rp1)).
  unfold segment_points, interior. cbn [fst snd].
  unfold word.gtu. rewrite !word.unsigned_ltu.
  set (first := if (i =? 0)%nat then [rp0] else []).
  assert (Hfirst : (if (i =? 0)%nat then emplace_back rp0 else ret tt) roadPoints
                   = (Returned tt, roadPoints ++ first)).
  { subst first. destruct (i =? 0)%nat; unfold emplace_back, ret;
      [reflexivity | now rewrite app_nil_r]. }
  rewrite Hfirst.
  destruct (Z.ltb_spec (word.unsigned (GetPointId rp0)) (word.unsigned (GetPointId rp1)))
    as [Lt | Ge].
  - unfold modify, emplace_back. rewrite loop_forward_spec.
    rewrite word.unsigned_add_nowrap; rewrite word.unsigned_of_Z_1; [| lia].
    rewrite <- !app_assoc.
    replace (word.unsigned (GetPointId rp0) + 1 - 1)
      with (word.unsigned (GetPointId rp0)) by lia.
    replace (word.unsigned (GetPointId rp1) - (word.unsigned (GetPointId rp0) + 1))
      with (word.unsigned (GetPointId rp1) - word.unsigned (GetPointId rp0) - 1) by lia.
    reflexivity.
  - destruct (Z.ltb_spec (word.unsigned (GetPointId rp1)) (word.unsigned (GetPointId rp0)))
      as [Gt | Le]; [| lia].
    unfold modify, emplace_back. rewrite loop_backward_spec.
    rewrite word.unsigned_sub_nowrap; rewrite word.unsigned_of_Z_1; [| lia].
    rewrite <- !app_assoc.
    replace (word.unsigned (GetPointId rp0) - 1 + 1)
      with (word.unsigned (GetPointId rp0)) by lia.
    replace (word.unsigned (GetPointId rp0) - 1 - word.unsigned (GetPointId rp1))
      with (word.unsigned (GetPointId rp0) - word.unsigned (GetPointId rp1) - 1) by lia.
    reflexivity.
Qed.

Lemma RedressRoute_body_equal (i : nat) (prevJoint nextJoint : Joint.Id)
    (seg : RoadPoint * RoadPoint) (roadPoints : list RoadPoint) :
  FindPointsWithCommonFeature s prevJoint nextJoint RoadPoint_default RoadPoint_default
  = Returned seg ->
  GetPointId (fst seg) = GetPointId (snd seg) ->
  RedressRoute_body s i prevJoint nextJoint roadPoints
  = (Thrown (WrongEquality (GetPointId (fst seg)) (GetFeatureId (fst seg))),
     roadPoints ++ (if (i =? 0)%nat then [fst seg] else [])).
Proof.
  intros F E. destruct seg as [rp0 rp1]. cbn [fst snd] in *.
  unfold RedressRoute_body, bind, call. rewrite F.
  unfold word.gtu. rewrite E, !word.unsigned_ltu, Z.ltb_irrefl.
  destruct (i =? 0)%nat; unfold emplace_back, ret, throw;
    [reflexivity | now rewrite app_nil_r].
Qed.

Lemma RedressRoute_loop_next (i : nat) (j0 j1 : Joint.Id) (rest : list Joint.Id) :
  RedressRoute_loop s i (j0 :: j1 :: rest)
  = bind (RedressRoute_body s i j0 j1) (fun _ => RedressRoute_loop s (S i) (j1 :: rest)).
Proof. reflexivity. Qed.

Lemma RedressRoute_loop_resolved (route : list Joint.Id)
    (segs : list (RoadPoint * RoadPoint)) :
  Resolved s route segs ->
  Forall proper segs ->
  forall (i : nat) (roadPoints : list RoadPoint),
    RedressRoute_loop s i route roadPoints
    = (Returned tt,
       roadPoints
       ++ (if (i =? 0)%nat then path_points segs else flat_map segment_points segs)).
Proof.
  induction 1 as [j | j0 j1 rest seg segs F R IH]; intros P i roadPoints.
  - cbn. unfold ret. now destruct (i =? 0)%nat; rewrite app_nil_r.
  - inversion P as [| ? ? Pseg Psegs]; subst.
    rewrite RedressRoute_loop_next. unfold bind.
    rewrite (RedressRoute_body_returned i j0 j1 seg roadPoints F Pseg).
    rewrite (IH Psegs (S i)). cbn [Nat.eqb path_points flat_map].
    f_equal. destruct (i =? 0)%nat; cbn [app]; now rewrite <- !app_assoc.
Qed.

Lemma RedressRoute_loop_equal (before : list Joint.Id) (j0 j1 : Joint.Id)
    (rest : list Joint.Id) (seg : RoadPoint * RoadPoint) :
  FindPointsWithCommonFeature s j0 j1 RoadPoint_default RoadPoint_default = Returned seg ->
  GetPointId (fst seg) = GetPointId (snd seg) ->
  forall (segs : list (RoadPoint * RoadPoint)) (i : nat) (roadPoints : list RoadPoint),
    Resolved s (before ++ [j0]) segs ->
    Forall proper segs ->
    RedressRoute_loop s i (before ++ j0 :: j1 :: rest) roadPoints
    = (Thrown (WrongEquality (GetPointId (fst seg)) (GetFeatureId (fst seg))),
       roadPoints
       ++ (if (i =? 0)%nat
           then match segs with [] => [fst seg] | _ :: _ => path_points segs end
           else flat_map segment_points segs)).
Proof.
  intros F E. induction before as [| j before IH]; intros segs i roadPoints R P.
  - inversion R; subst. cbn [app flat_map]. rewrite RedressRoute_loop_next. unfold bind.
    rewrite (RedressRoute_body_equal i j0 j1 seg roadPoints F E).
    now destruct (i =? 0)%nat.
  - assert (Hshape : exists j' tl tl',
               before ++ [j0] = j' :: tl /\ before ++ j0 :: j1 :: rest = j' :: tl').
    { destruct before as [| j' before']; cbn [app]; eauto. }
    destruct Hshape as (j' & tl & tl' & E1 & E2).
    cbn [app] in R. rewrite E1 in R. inversion R as [| ? ? ? seg0 segs' F0 R0]; subst.
    inversion P as [| ? ? Pseg Psegs]; subst.
    rewrite <- E1 in R0. specialize (IH segs' (S i)).
    cbn [app]. rewrite E2, RedressRoute_loop_next, <- E2. unfold bind.
    rewrite (RedressRoute_body_returned i j j' seg0 roadPoints F0 Pseg).
    rewrite (IH _ R0 Psegs). cbn [Nat.eqb path_points flat_map].
    f_equal. destruct (i =? 0)%nat; cbn [app]; now rewrite <- !app_assoc.
Qed.

Lemma Resolved_length (route : list Joint.Id) (segs : list (RoadPoint * RoadPoint)) :
  Resolved s route segs -> length route = S (length segs).
Proof. induction 1; cbn [length] in *; congruence. Qed.

(** The points inside a segment: as many as there are offsets strictly
    between the two ends, the one at index [k] being [k + 1] steps from the
    first end towards the second, on the road of the first end. *)
Lemma interior_nth (seg : RoadPoint * RoadPoint) (k : nat) (d : RoadPoint) :
  let from := word.unsigned (GetPointId (fst seg)) in
  let to := word.unsigned (GetPointId (snd seg)) in
  length (interior seg) = Z.to_nat (Z.abs (to - from) - 1) /\
  ((k < length (interior seg))%nat ->
   GetFeatureId (nth k (interior seg) d) = GetFeatureId (fst seg) /\
   word.unsigned (GetPointId (nth k (interior seg) d))
   = if from <? to then from + 1 + Z.of_nat k else from - 1 - Z.of_nat k).
Proof.
  intros from to.
  pose proof (word.unsigned_range (GetPointId (fst seg))) as Rf.
  pose proof (word.unsigned_range (GetPointId (snd seg))) as Rt.
  fold from in Rf. fold to in Rt.
  unfold interior. fold from. fold to.
  destruct (Z.ltb_spec from to) as [Lt | Ge].
  - unfold ascending. rewrite length_map, length_seq. split; [lia |]. intros Hk.
    rewrite (nth_indep _ d
               (mkRoadPoint (GetFeatureId (fst seg)) (word.of_Z (from + 1 + Z.of_nat 0))))
      by now rewrite length_map, length_seq.
    rewrite (map_nth (fun k => mkRoadPoint (GetFeatureId (fst seg))
                                 (word.of_Z (from + 1 + Z.of_nat k)))).
    rewrite seq_nth by assumption. cbn [GetFeatureId GetPointId]. split; [reflexivity |].
    rewrite word.unsigned_of_Z_nowrap; lia.
  - unfold descending. rewrite length_map, length_seq. split; [lia |]. intros Hk.
    rewrite (nth_indep _ d
               (mkRoadPoint (GetFeatureId (fst seg)) (word.of_Z (from - 1 - Z.of_nat 0))))
      by now rewrite length_map, length_seq.
    rewrite (map_nth (fun k => mkRoadPoint (GetFeatureId (fst seg))
                                 (word.of_Z (from - 1 - Z.of_nat k)))).
    rewrite seq_nth by assumption. cbn [GetFeatureId GetPointId]. split; [reflexivity |].
    rewrite word.unsigned_of_Z_nowrap; lia.
Qed.

(** C1, as the code has it.  For a path of two joints or more whose
    consecutive joints each resolve to a pair of points with different
    offsets, [RedressRoute] returns, and adds to the vector the first point
    of the first pair and then, for each pair, the points strictly between
    its two points followed by its second point.  The points between are
    all the offsets between the two ends, one step after the other from the
    first end towards the second. *)
Theorem RedressRoute_resolved (route : list Joint.Id)
    (segs : list (RoadPoint * RoadPoint)) (roadPoints : list RoadPoint) :
  (2 <= length route)%nat ->
  Resolved s route segs ->
  Forall proper segs ->
  RedressRoute s route roadPoints = (Returned tt, roadPoints ++ path_points segs) /\
  length segs = (length route - 1)%nat /\
  (forall seg, segs = [seg] ->
     RedressRoute s route roadPoints
     = (Returned tt, roadPoints ++ fst seg :: interior seg ++ [snd seg])) /\
  (forall seg k d,
     let from := word.unsigned (GetPointId (fst seg)) in
     let to := word.unsigned (GetPointId (snd seg)) in
     length (interior seg) = Z.to_nat (Z.abs (to - from) - 1) /\
     ((k < length (interior seg))%nat ->
      GetFeatureId (nth k (interior seg) d) = GetFeatureId (fst seg) /\
      word.unsigned (GetPointId (nth k (interior seg) d))
      = if from <? to then from + 1 + Z.of_nat k else from - 1 - Z.of_nat k)).
Proof.
  intros L R P.
  assert (E : RedressRoute s route roadPoints
              = (Returned tt, roadPoints ++ path_points segs)).
  { unfold RedressRoute. apply Nat.ltb_ge in L. rewrite L.
    now rewrite (RedressRoute_loop_resolved route segs R P 0). }
  split; [exact E |]. split; [| split].
  - apply Resolved_length in R. lia.
  - intros seg ->. rewrite E. cbn [path_points flat_map].
    unfold segment_points. now rewrite app_nil_r.
  - intros seg k d. apply interior_nth.
Qed.

(** C8.  A path without joints adds nothing to the vector, and a path of one
    joint adds the point of the start; on an empty vector the results are the
    empty vector and the point of the start alone. *)
Theorem RedressRoute_short (roadPoints : list RoadPoint) :
  RedressRoute s [] roadPoints = (Returned tt, roadPoints) /\
  (forall j, RedressRoute s [j] roadPoints
             = (Returned tt, roadPoints ++ [m_point (m_start s)])) /\
  RedressRoute s [] [] = (Returned tt, []) /\
  (forall j, RedressRoute s [j] [] = (Returned tt, [m_point (m_start s)])).
Proof. repeat split. Qed.

(** *** The output vectors *)

Lemma appending_ret {A : Type} (a : A) : appending (ret a).
Proof. intros roadPoints. unfold ret. cbn. now rewrite app_nil_r. Qed.

Lemma appending_throw {A : Type} (e : RoutingException) : appending (@throw A e).
Proof. intros roadPoints. unfold throw. cbn. now rewrite app_nil_r. Qed.

Lemma appending_call {A : Type} (r : Result A) : appending (call r).
Proof. intros roadPoints. unfold call. cbn. now rewrite app_nil_r. Qed.

Lemma appending_emplace_back (rp : RoadPoint) : appending (emplace_back rp).
Proof. intros roadPoints. reflexivity. Qed.

Lemma appending_modify (f : list RoadPoint -> list RoadPoint) :
  (forall roadPoints, f roadPoints = roadPoints ++ f []) -> appending (modify f).
Proof. intros H roadPoints. unfold modify. cbn. now rewrite H. Qed.

Lemma appending_bind {A B : Type} (m : M A) (k : A -> M B) :
  appending m -> (forall a, appending (k a)) -> appending (bind m k).
Proof.
  intros Hm Hk roadPoints. unfold bind. rewrite (Hm roadPoints).
  destruct (m []) as [[a | e] added]; cbn [fst snd]; [| reflexivity].
  rewrite (Hk a (roadPoints ++ added)), (Hk a added). cbn [fst snd].
  now rewrite app_assoc.
Qed.

Lemma appending_body (i : nat) (prevJoint nextJoint : Joint.Id) :
  appending (RedressRoute_body s i prevJoint nextJoint).
Proof.
  unfold RedressRoute_body. apply appending_bind; [apply appending_call |].
  intros [rp0 rp1]. apply appending_bind.
  { destruct (i =? 0)%nat; [apply appending_emplace_back | apply appending_ret]. }
  intros _. apply appending_bind; [| intros _; apply appending_emplace_back].
  destruct (word.ltu _ _).
  - apply appending_modify. intros roadPoints. now rewrite !loop_forward_spec.
  - destruct (word.gtu _ _).
    + apply appending_modify. intros roadPoints. now rewrite !loop_backward_spec.
    + apply appending_throw.
Qed.

Lemma appending_loop (route : list Joint.Id) (i : nat) :
  appending (RedressRoute_loop s i route).
Proof.
  revert i. induction route as [| j0 route IH]; intros i; [apply appending_ret |].
  destruct route as [| j1 rest]; [apply appending_ret |].
  rewrite RedressRoute_loop_next. apply appending_bind; [apply appending_body |].
  intros _. apply IH.
Qed.

(** C10.  [GetEdgesList] answers the same whatever the vector of edges
    held, since it clears it first.  [RedressRoute] never clears the vector
    of road points: it ends as it does on the empty vector, and leaves the
    vector it was given followed by the points it leaves of the empty one,
    also when it throws. *)
Theorem output_vectors :
  (forall jointId isOutgoing edges,
     GetEdgesList s jointId isOutgoing edges = GetEdgesList s jointId isOutgoing []) /\
  (forall route roadPoints,
     RedressRoute s route roadPoints
     = (fst (RedressRoute s route []), roadPoints ++ snd (RedressRoute s route []))).
Proof.
  split; [reflexivity |].
  intros route. change (appending (RedressRoute s route)). unfold RedressRoute.
  destruct (length route <? 2)%nat; [| apply appending_loop].
  destruct (length route =? 1)%nat; [apply appending_emplace_back | apply appending_ret].
Qed.

(** C9.  A pair of points with equal offsets on a routable road passes the
    three tests of [FindPointsWithCommonFeature], one-way or not, and the
    function returns such a pair when no other pair qualifies.  The equal
    offsets are found by [RedressRoute] only: at the first pair of
    consecutive joints that resolves to equal offsets it throws, with the
    offset and the road in the exception, after the points of the joints
    before. *)
Theorem equal_offsets_found_late :
  (forall rp0 rp1,
     GetFeatureId rp0 = GetFeatureId rp1 ->
     IsRoad (IndexGraph.GetRoad (m_graph s) (GetFeatureId rp0)) = true ->
     GetPointId rp0 = GetPointId rp1 ->
     Qualifies s (rp0, rp1) /\ qualifies s (rp0, rp1) = true) /\
  (forall jointId0 jointId1 r0 r1,
     candidates s jointId0 jointId1 <> [] ->
     (forall c, In c (candidates s jointId0 jointId1) ->
                GetPointId (fst c) = GetPointId (snd c)) ->
     exists seg,
       FindPointsWithCommonFeature s jointId0 jointId1 r0 r1 = Returned seg /\
       GetPointId (fst seg) = GetPointId (snd seg)) /\
  (forall before j0 j1 rest segs seg roadPoints,
     Resolved s (before ++ [j0]) segs ->
     Forall proper segs ->
     FindPointsWithCommonFeature s j0 j1 RoadPoint_default RoadPoint_default
     = Returned seg ->
     GetPointId (fst seg) = GetPointId (snd seg) ->
     RedressRoute s (before ++ j0 :: j1 :: rest) roadPoints
     = (Thrown (WrongEquality (GetPointId (fst seg)) (GetFeatureId (fst seg))),
        roadPoints
        ++ match segs with [] => [fst seg] | _ :: _ => path_points segs end)).
Proof.
  split; [| split].
  - intros rp0 rp1 Ef Er Ep.
    assert (Q : Qualifies s (rp0, rp1)).
    { unfold Qualifies. cbn [fst snd]. rewrite Ep. repeat split; try assumption. lia. }
    split; [exact Q | now apply qualifies_Qualifies].
  - intros jointId0 jointId1 r0 r1 N H.
    destruct (FindPoints_some s jointId0 jointId1 r0 r1 N)
      as ((_ & (before & after & E & _) & _) & R).
    eexists. split; [exact R |].
    apply (H (_, _)). rewrite E. apply in_elt.
  - intros before j0 j1 rest segs seg roadPoints R P F E.
    unfold RedressRoute.
    assert (L : (length (before ++ j0 :: j1 :: rest) <? 2)%nat = false).
    { apply Nat.ltb_ge. rewrite length_app. cbn [length]. lia. }
    rewrite L. now rewrite (RedressRoute_loop_equal before j0 j1 rest seg F E segs 0).
Qed.

End Redress.

Lemma RedressRoute_resolved_witness :
  RedressRoute Examples.trip [Examples.u32 3; Examples.u32 1; Examples.u32 4] []
  = (Returned tt, [Examples.rp 0 2; Examples.rp 0 3; Examples.rp 0 4; Examples.rp 1 1]).
Proof.
  refine (proj1 (RedressRoute_resolved Examples.trip
                   [Examples.u32 3; Examples.u32 1; Examples.u32 4]
                   [(Examples.rp 0 2, Examples.rp 0 4); (Examples.rp 1 0, Examples.rp 1 1)]
                   [] _ _ _)).
  - cbn [length]. lia.
  - apply Resolved_next; [reflexivity |].
    apply Resolved_next; [reflexivity |].
    apply Resolved_last.
  - repeat constructor; words_differ.
Defined.

(** C1, as the specification has it, fails when a pair of consecutive
    joints resolves to equal offsets: the pair of joint 0 of the town with
    itself has a qualifying pair of points, yet [RedressRoute] throws after
    the first point and returns no path. *)
Lemma RedressRoute_equal_offsets :
  (2 <= length [Examples.u32 0; Examples.u32 0])%nat /\
  candidates Examples.trip (Examples.u32 0) (Examples.u32 0) <> [] /\
  FindPointsWithCommonFeature Examples.trip (Examples.u32 0) (Examples.u32 0)
    RoadPoint_default RoadPoint_default
  = Returned (Examples.rp 0 0, Examples.rp 0 0) /\
  RedressRoute Examples.trip [Examples.u32 0; Examples.u32 0] []
  = (Thrown (WrongEquality (Examples.u32 0) (Examples.u32 0)), [Examples.rp 0 0]) /\
  ~ (exists points,
       RedressRoute Examples.trip [Examples.u32 0; Examples.u32 0] []
       = (Returned tt, points)).
Proof.
  assert (E : RedressRoute Examples.trip [Examples.u32 0; Examples.u32 0] []
              = (Thrown (WrongEquality (Examples.u32 0) (Examples.u32 0)),
                 [Examples.rp 0 0])) by reflexivity.
  split; [cbn [length]; lia |]. split; [| split; [reflexivity | split; [exact E |]]].
  - intros H. vm_compute in H. discriminate H.
  - intros (points & H). rewrite E in H. discriminate H.
Qed.

Lemma equal_offsets_found_late_witness :
  RedressRoute Examples.trip [Examples.u32 1; Examples.u32 0; Examples.u32 0] []
  = (Thrown (WrongEquality (Examples.u32 0) (Examples.u32 0)),
     [Examples.rp 2 2; Examples.rp 2 1; Examples.rp 2 0]).
Proof.
  refine (proj2 (proj2 (equal_offsets_found_late Examples.trip))
            [Examples.u32 1] (Examples.u32 0) (Examples.u32 0) []
            [(Examples.rp 2 2, Examples.rp 2 0)] (Examples.rp 0 0, Examples.rp 0 0)
            [] _ _ _ _).
  - apply Resolved_next; [reflexivity | apply Resolved_last].
  - repeat constructor; words_differ.
  - reflexivity.
  - reflexivity.
Defined.

(** * Further properties of the code *)

(** ** The reserved identifiers and the coordinates *)

Lemma word_succ_differs (n : uint32_t) : word.add n (word.of_Z 1) <> n.
Proof.
  intros E. apply (f_equal word.unsigned) in E.
  rewrite word.unsigned_add, word.unsigned_of_Z_1 in E. unfold word.wrap in E.
  pose proof (word.unsigned_range n) as R.
  change (2 ^ 32) with 4294967296 in *.
  destruct (Z.eq_dec (word.unsigned n) 4294967295) as [M | M].
  - rewrite M in E. vm_compute in E. discriminate E.
  - rewrite Z.mod_small in E by lia. lia.
Qed.

(** X1.  The constructor reserves the number of joints for the start and
    the next 32-bit number for the finish; the two are never the same, so
    that [GetPoint] answers the first with the coordinates of the start, the
    second with those of the finish, and asks the network for every other
    identifier. *)
Theorem new_reserved_ids (kInvalidId : Joint.Id) (graph : IndexGraph.t)
    (startPoint finishPoint : RoadPoint) (points : GraphPoints) :
  let s := new kInvalidId graph startPoint finishPoint in
  m_fakeId (m_start s) = IndexGraph.GetNumJoints graph /\
  m_fakeId (m_finish s) = word.add (IndexGraph.GetNumJoints graph) (word.of_Z 1) /\
  m_fakeId (m_finish s) <> m_fakeId (m_start s) /\
  GetPoint points s (m_fakeId (m_start s)) = GetPoint_of_RoadPoint points startPoint /\
  GetPoint points s (m_fakeId (m_finish s)) = GetPoint_of_RoadPoint points finishPoint /\
  (forall jointId,
     jointId <> m_fakeId (m_start s) -> jointId <> m_fakeId (m_finish s) ->
     GetPoint points s jointId = GetPoint_of_Joint points jointId).
Proof.
  intros s. subst s. unfold GetPoint, new, newFakeJoint.
  cbn [m_fakeId m_point m_start m_finish].
  pose proof (word_succ_differs (IndexGraph.GetNumJoints graph)) as D.
  split; [reflexivity |]. split; [reflexivity |]. split; [exact D |].
  split; [now rewrite word.eqb_eq |]. split.
  - now rewrite (word.eqb_ne _ _ D), word.eqb_eq.
  - intros jointId Hs Hf. now rewrite (word.eqb_ne _ _ Hs), (word.eqb_ne _ _ Hf).
Qed.

Lemma new_reserved_ids_witness :
  GetPoint (mkGraphPoints (fun p => m2.mkPointD 1 1) (fun j => m2.mkPointD 2 2))
    Examples.trip (Examples.u32 1)
  = m2.mkPointD 2 2.
Proof.
  refine (proj2 (proj2 (proj2 (proj2 (proj2
            (new_reserved_ids Examples.kInvalidId Examples.town
               (Examples.rp 0 2) (Examples.rp 1 1)
               (mkGraphPoints (fun p => m2.mkPointD 1 1) (fun j => m2.mkPointD 2 2)))))))
            (Examples.u32 1) _ _); words_differ.
Defined.

(** X2.  A search from a point to itself, the point being on no joint:
    both ends resolve to the reserved identifier of the start, the finish
    is not virtual, and the edges of that identifier are the neighbouring
    edges of the point alone, without an edge from the point to itself;
    the path of that one identifier is redressed to the point. *)
Theorem same_point_zero_hop (kInvalidId : Joint.Id) (graph : IndexGraph.t)
    (point : RoadPoint) :
  IndexGraph.GetNumJoints graph <> kInvalidId ->
  IndexGraph.GetJointId graph point = kInvalidId ->
  let s := new kInvalidId graph point point in
  let id := IndexGraph.GetNumJoints graph in
  m_jointId (m_start s) = id /\
  m_jointId (m_finish s) = id /\
  IsFake (m_start s) = true /\
  IsFake (m_finish s) = false /\
  (forall isOutgoing edges,
     GetEdgesList s id isOutgoing edges
     = IndexGraph.NeighboringEdges graph point isOutgoing) /\
  (forall roadPoints,
     RedressRoute s [id] roadPoints = (Returned tt, roadPoints ++ [point])).
Proof.
  intros Hn Hj s id.
  assert (Hk : word.eqb kInvalidId kInvalidId = true) by now apply word.eqb_eq.
  assert (Es : m_jointId (m_start s) = id).
  { subst s id. unfold new, newFakeJoint, CalcJointId. cbn [m_jointId m_start].
    now rewrite Hj, Hk. }
  assert (Ef : m_jointId (m_finish s) = id).
  { subst s id. unfold new, newFakeJoint, CalcJointId. cbn [m_jointId m_start m_finish].
    rewrite (proj2 (RoadPoint_eqb_eq point point) eq_refl).
    now rewrite Hj, Hk, (word.eqb_ne _ _ Hn). }
  assert (Fs : IsFake (m_start s) = true) by (apply IsFake_true; now rewrite Es).
  assert (Ff : IsFake (m_finish s) = false).
  { apply IsFake_false. rewrite Ef. subst s id. cbn [new newFakeJoint m_fakeId m_finish].
    intros E. now apply (word_succ_differs (IndexGraph.GetNumJoints graph)). }
  repeat split; try assumption.
  intros isOutgoing edges. unfold GetEdgesList.
  change (m_fakeId (m_start s)) with id. rewrite word.eqb_eq by reflexivity.
  rewrite GetFakeEdges_eq, Ff. cbn [andb app]. now rewrite app_nil_r.
Qed.

Lemma same_point_zero_hop_witness :
  GetEdgesList Examples.stay (Examples.u32 3) true [Examples.edge 9 9]
  = [Examples.edge 0 10; Examples.edge 1 10].
Proof.
  refine (proj1 (proj2 (proj2 (proj2 (proj2
            (same_point_zero_hop Examples.kInvalidId Examples.town (Examples.rp 0 2) _ _)))))
            true [Examples.edge 9 9]).
  - words_differ.
  - reflexivity.
Defined.

(** ** Edges seen from both sides *)

Lemma GetArrivalFakeEdges_eq (s : t) (jointId : Joint.Id) (fakeJoint : FakeJoint)
    (isOutgoing : bool) :
  GetArrivalFakeEdges s jointId fakeJoint isOutgoing []
  = if IsFake fakeJoint
       && IndexGraph.JointLiesOnRoad (m_graph s) jointId (GetFeatureId (m_point fakeJoint))
    then map (reversed fakeJoint) (hits s jointId fakeJoint (negb isOutgoing))
    else [].
Proof.
  unfold GetArrivalFakeEdges, hits.
  destruct (IsFake fakeJoint); cbn [negb andb]; [| reflexivity].
  destruct (IndexGraph.JointLiesOnRoad _ _ _); cbn [negb]; [| reflexivity].
  now rewrite arrival_fold.
Qed.

Lemma in_reversed_hits (s : t) (jointId : Joint.Id) (fakeJoint : FakeJoint)
    (isOutgoing : bool) (weight : double) :
  In (mkJointEdge (m_jointId fakeJoint) weight)
     (map (reversed fakeJoint) (hits s jointId fakeJoint isOutgoing))
  <-> In (mkJointEdge jointId weight)
         (IndexGraph.NeighboringEdges (m_graph s) (m_point fakeJoint) isOutgoing).
Proof.
  unfold hits, reversed. rewrite in_map_iff. split.
  - intros ([target w] & E & Hin). apply filter_In in Hin as [Hin T].
    cbn [GetTarget GetWeight] in *. apply word.eqb_true in T.
    injection E as ->. now subst target.
  - intros Hin. exists (mkJointEdge jointId weight). split; [reflexivity |].
    apply filter_In. split; [assumption |]. cbn [GetTarget]. now apply word.eqb_eq.
Qed.

Lemma in_GetFakeEdges_real (s : t) (from to : FakeJoint) (isOutgoing : bool)
    (edges : list JointEdge) (jointId : Joint.Id) (weight : double) :
  jointId <> m_fakeId to ->
  In (mkJointEdge jointId weight) (GetFakeEdges s from to isOutgoing []) ->
  In (mkJointEdge jointId weight)
     (IndexGraph.NeighboringEdges (m_graph s) (m_point from) isOutgoing).
Proof.
  intros Hne. rewrite GetFakeEdges_eq. cbn [app]. intros Hin.
  apply in_app_or in Hin as [Hin | Hin]; [assumption | exfalso].
  destruct (IsFake to) eqn:F; cbn [andb] in Hin; [| contradiction].
  destruct (word.eqb _ _); [| contradiction].
  unfold direct in Hin. destruct (IndexGraph.DirectedEdgeWeight _ _ _ _ _); [| contradiction].
  destruct Hin as [E | []]. injection E as E _. apply IsFake_true in F. congruence.
Qed.

(** X3.  An edge from a virtual endpoint to a joint of its road is seen
    from the joint as well: the arrival edges of the joint in one direction
    are the neighbouring edges of the endpoint to the joint in the other
    direction, with their weights; so an edge that [GetEdgesList] gives the
    start, or the finish, to a real joint has its mirror among the edges
    [GetEdgesList] gives the joint in the opposite direction. *)
Theorem arrival_mirrors_departure (s : t) (jointId : Joint.Id) (isOutgoing : bool)
    (weight : double) :
  jointId <> m_fakeId (m_start s) ->
  jointId <> m_fakeId (m_finish s) ->
  (forall fakeJoint,
     m_jointId fakeJoint = m_fakeId fakeJoint ->
     IndexGraph.JointLiesOnRoad (m_graph s) jointId (GetFeatureId (m_point fakeJoint)) = true ->
     (In (mkJointEdge (m_jointId fakeJoint) weight)
         (GetArrivalFakeEdges s jointId fakeJoint isOutgoing [])
      <-> In (mkJointEdge jointId weight)
             (IndexGraph.NeighboringEdges (m_graph s) (m_point fakeJoint)
                (negb isOutgoing)))) /\
  (m_jointId (m_start s) = m_fakeId (m_start s) ->
   IndexGraph.JointLiesOnRoad (m_graph s) jointId (GetFeatureId (m_point (m_start s))) = true ->
   forall edges edges',
     In (mkJointEdge jointId weight)
        (GetEdgesList s (m_fakeId (m_start s)) (negb isOutgoing) edges) ->
     In (mkJointEdge (m_jointId (m_start s)) weight)
        (GetEdgesList s jointId isOutgoing edges')) /\
  (m_jointId (m_finish s) = m_fakeId (m_finish s) ->
   m_fakeId (m_finish s) <> m_fakeId (m_start s) ->
   IndexGraph.JointLiesOnRoad (m_graph s) jointId (GetFeatureId (m_point (m_finish s))) = true ->
   forall edges edges',
     In (mkJointEdge jointId weight)
        (GetEdgesList s (m_fakeId (m_finish s)) (negb isOutgoing) edges) ->
     In (mkJointEdge (m_jointId (m_finish s)) weight)
        (GetEdgesList s jointId isOutgoing edges')).
Proof.
  intros Hs Hf.
  assert (Hmirror : forall fakeJoint,
            m_jointId fakeJoint = m_fakeId fakeJoint ->
            IndexGraph.JointLiesOnRoad (m_graph s) jointId
              (GetFeatureId (m_point fakeJoint)) = true ->
            (In (mkJointEdge (m_jointId fakeJoint) weight)
                (GetArrivalFakeEdges s jointId fakeJoint isOutgoing [])
             <-> In (mkJointEdge jointId weight)
                    (IndexGraph.NeighboringEdges (m_graph s) (m_point fakeJoint)
                       (negb isOutgoing)))).
  { intros fakeJoint F L. apply IsFake_true in F.
    rewrite GetArrivalFakeEdges_eq, F, L. cbn [andb]. apply in_reversed_hits. }
  split; [exact Hmirror |]. split.
  - intros F L edges edges' Hin.
    rewrite (GetEdgesList_real s jointId isOutgoing edges' Hs Hf).
    apply in_or_app. right. apply in_or_app. left.
    apply (Hmirror (m_start s) F L).
    unfold GetEdgesList in Hin. rewrite word.eqb_eq in Hin by reflexivity.
    now apply (in_GetFakeEdges_real s _ _ _ [] _ _ Hf).
  - intros F D L edges edges' Hin.
    rewrite (GetEdgesList_real s jointId isOutgoing edges' Hs Hf).
    apply in_or_app. right. apply in_or_app. right.
    apply (Hmirror (m_finish s) F L).
    unfold GetEdgesList in Hin.
    rewrite (word.eqb_ne _ _ D), word.eqb_eq in Hin by reflexivity.
    now apply (in_GetFakeEdges_real s _ _ _ [] _ _ Hs).
Qed.

Lemma arrival_mirrors_departure_witness :
  In (mkJointEdge (m_jointId (m_start Examples.trip)) (inject_Z 10))
     (GetEdgesList Examples.trip (Examples.u32 1) true []).
Proof.
  refine (proj1 (proj2 (arrival_mirrors_departure Examples.trip (Examples.u32 1) true
                          (inject_Z 10) _ _)) _ _ [] [] _).
  - words_differ.
  - words_differ.
  - reflexivity.
  - reflexivity.
  - right. left. reflexivity.
Defined.

(** X4.  Away from the endpoints [GetEdgesList] is the network's own list:
    for a real joint that is on the road of no virtual endpoint nothing is
    added.  Whatever the joint, an edge of the answer that the network does
    not have leads to the resolved identifier of a virtual endpoint on
    whose road the joint lies. *)
Theorem GetEdgesList_away (s : t) (jointId : Joint.Id) (isOutgoing : bool)
    (edges : list JointEdge) :
  jointId <> m_fakeId (m_start s) ->
  jointId <> m_fakeId (m_finish s) ->
  let meets := fun fakeJoint =>
    IsFake fakeJoint = true /\
    IndexGraph.JointLiesOnRoad (m_graph s) jointId (GetFeatureId (m_point fakeJoint)) = true in
  (~ meets (m_start s) -> ~ meets (m_finish s) ->
   GetEdgesList s jointId isOutgoing edges
   = IndexGraph.EdgesList (m_graph s) jointId isOutgoing) /\
  (forall e, In e (GetEdgesList s jointId isOutgoing edges) ->
     In e (IndexGraph.EdgesList (m_graph s) jointId isOutgoing) \/
     (meets (m_start s) /\ GetTarget e = m_jointId (m_start s)) \/
     (meets (m_finish s) /\ GetTarget e = m_jointId (m_finish s))).
Proof.
  intros Hs Hf meets.
  assert (Hmeets : forall fakeJoint,
            (IsFake fakeJoint
             && IndexGraph.JointLiesOnRoad (m_graph s) jointId
                  (GetFeatureId (m_point fakeJoint))) = true <-> meets fakeJoint).
  { intros fakeJoint. unfold meets. now rewrite andb_true_iff. }
  rewrite (GetEdgesList_real s jointId isOutgoing edges Hs Hf), !GetArrivalFakeEdges_eq.
  split.
  - intros Ns Nf.
    destruct (IsFake (m_start s) && _) eqn:Ms; [now apply Hmeets in Ms |].
    destruct (IsFake (m_finish s) && _) eqn:Mf; [now apply Hmeets in Mf |].
    now rewrite !app_nil_r.
  - intros e Hin. apply in_app_or in Hin as [Hin | Hin]; [now left | right].
    apply in_app_or in Hin as [Hin | Hin]; [left | right].
    + destruct (IsFake (m_start s) && _) eqn:Ms; [| contradiction].
      split; [now apply Hmeets |].
      apply in_map_iff in Hin as (e' & <- & _). reflexivity.
    + destruct (IsFake (m_finish s) && _) eqn:Mf; [| contradiction].
      split; [now apply Hmeets |].
      apply in_map_iff in Hin as (e' & <- & _). reflexivity.
Qed.

Lemma GetEdgesList_away_witness :
  GetEdgesList Examples.stay (Examples.u32 2) false [Examples.edge 9 9]
  = IndexGraph.EdgesList (m_graph Examples.stay) (Examples.u32 2) false.
Proof.
  refine (proj1 (GetEdgesList_away Examples.stay (Examples.u32 2) false
                   [Examples.edge 9 9] _ _) _ _).
  - words_differ.
  - words_differ.
  - intros [_ L]. vm_compute in L. discriminate L.
  - intros [F _]. vm_compute in F. discriminate F.
Defined.

(** ** More on the common road of two joints *)

Lemma consider_init (s : t) (c : RoadPoint * RoadPoint) (r0 r1 : RoadPoint) :
  consider s (fst c) (snd c) (mkLocals false (-1) r0 r1 [])
  = mkLocals true (-1) (fst c) (snd c) [].
Proof. reflexivity. Qed.

Lemma FindPoints_thrown_iff (s : t) (jointId0 jointId1 : Joint.Id) (r0 r1 : RoadPoint) :
  FindPointsWithCommonFeature s jointId0 jointId1 r0 r1
  = Thrown (CantFindCommonFeature jointId0 jointId1)
  <-> candidates s jointId0 jointId1 = [].
Proof.
  split; [| apply FindPoints_none].
  intros T. destruct (candidates s jointId0 jointId1) eqn:E; [reflexivity |].
  destruct (FindPoints_some s jointId0 jointId1 r0 r1) as (_ & R); congruence.
Qed.

Lemma FindPoints_returned_candidate (s : t) (jointId0 jointId1 : Joint.Id)
    (r0 r1 : RoadPoint) (c : RoadPoint * RoadPoint) :
  FindPointsWithCommonFeature s jointId0 jointId1 r0 r1 = Returned c ->
  In c (candidates s jointId0 jointId1).
Proof.
  intros R. destruct (candidates s jointId0 jointId1) eqn:E.
  - rewrite (FindPoints_none s jointId0 jointId1 r0 r1 E) in R. discriminate R.
  - destruct (FindPoints_some s jointId0 jointId1 r0 r1) as (K & R'); [congruence |].
    destruct K as (_ & (before & after & Ecs & _) & _).
    rewrite R in R'. injection R' as ->. rewrite <- E, Ecs. apply in_elt.
Qed.

Lemma FindPoints_any_output (s : t) (jointId0 jointId1 : Joint.Id)
    (r0 r1 r0' r1' : RoadPoint) :
  FindPointsWithCommonFeature s jointId0 jointId1 r0 r1
  = FindPointsWithCommonFeature s jointId0 jointId1 r0' r1'.
Proof.
  unfold FindPointsWithCommonFeature. rewrite !FindPoints_locals_candidates.
  destruct (candidates s jointId0 jointId1) as [| c cs]; [reflexivity |].
  cbn [fold_left]. now rewrite !consider_init.
Qed.

(** X5.  The two points [FindPointsWithCommonFeature] returns are a point
    of the first joint and a point of the second, on one road that is
    routable and, if one-way, leads from the first to the second; and they
    do not depend on what the two output parameters held before the call. *)
Theorem FindPointsWithCommonFeature_sound (s : t) (jointId0 jointId1 : Joint.Id)
    (r0 r1 rp0 rp1 : RoadPoint) :
  FindPointsWithCommonFeature s jointId0 jointId1 r0 r1 = Returned (rp0, rp1) ->
  In rp0 (ForEachPoint s jointId0) /\
  In rp1 (ForEachPoint s jointId1) /\
  Qualifies s (rp0, rp1) /\
  (forall r0' r1',
     FindPointsWithCommonFeature s jointId0 jointId1 r0' r1' = Returned (rp0, rp1)).
Proof.
  intros R. pose proof (FindPoints_returned_candidate s _ _ _ _ _ R) as Hin.
  unfold candidates, pairs in Hin. apply filter_In in Hin as [Hin Q].
  apply in_prod_iff in Hin as [H0 H1].
  split; [exact H0 |]. split; [exact H1 |]. split; [now apply qualifies_Qualifies |].
  intros r0' r1'. now rewrite (FindPoints_any_output s jointId0 jointId1 r0' r1' r0 r1).
Qed.

Lemma FindPointsWithCommonFeature_sound_witness :
  In (Examples.rp 2 0) (ForEachPoint Examples.trip (Examples.u32 0)) /\
  In (Examples.rp 2 2) (ForEachPoint Examples.trip (Examples.u32 1)) /\
  Qualifies Examples.trip (Examples.rp 2 0, Examples.rp 2 2) /\
  (forall r0' r1',
     FindPointsWithCommonFeature Examples.trip (Examples.u32 0) (Examples.u32 1) r0' r1'
     = Returned (Examples.rp 2 0, Examples.rp 2 2)).
Proof.
  apply (FindPointsWithCommonFeature_sound Examples.trip (Examples.u32 0) (Examples.u32 1)
           RoadPoint_default RoadPoint_default).
  reflexivity.
Defined.

Lemma calls_of_considered (s : t) (cs : list (RoadPoint * RoadPoint)) (r0 r1 : RoadPoint) :
  (forall c, In c cs -> (0 <= pair_weight s c)%Q) ->
  (2 <= length cs)%nat ->
  calls (fold_left (fun l c => consider s (fst c) (snd c) l) cs
           (mkLocals false (-1) r0 r1 []))
  = map (call_of s) cs.
Proof.
  induction cs as [| c cs IH] using rev_ind; intros Pos Len; [cbn in Len; lia |].
  rewrite fold_left_app, map_app. cbn [fold_left map].
  set (l := fold_left (fun l c => consider s (fst c) (snd c) l) cs
              (mkLocals false (-1) r0 r1 [])) in *.
  destruct cs as [| c1 [| c2 cs']].
  - cbn in Len. lia.
  - subst l. cbn [fold_left]. rewrite consider_init.
    unfold consider. cbn [found]. unfold compute_minWeight. cbn [minWeight].
    destruct (Qlt_le_dec (-1) 0) as [_ | Abs]; [| now vm_compute in Abs].
    unfold estimate. cbn [minWeight calls found result0 result1 app].
    now destruct (Qlt_le_dec _ _).
  - assert (N : c1 :: c2 :: cs' <> []) by discriminate.
    pose proof (considered_kept s (c1 :: c2 :: cs') r0 r1 N) as K. fold l in K.
    destruct K as (F & (before & after & E & _) & _ & Two).
    destruct Two as (W & _); [cbn [length]; lia |].
    assert (Hin : In (result0 l, result1 l) (c1 :: c2 :: cs')).
    { rewrite E. apply in_elt. }
    assert (P : (0 <= minWeight l)%Q).
    { rewrite W. apply Pos. apply in_or_app. now left. }
    rewrite <- IH.
    + unfold consider. rewrite F. unfold compute_minWeight.
      destruct (Qlt_le_dec (minWeight l) 0) as [Neg | _].
      * exfalso. now apply (Qle_not_lt _ _ P).
      * unfold estimate. cbn [minWeight calls].
        now destruct (Qlt_le_dec _ _).
    + intros c' Hc'. apply Pos. apply in_or_app. now left.
    + cbn [length]. lia.
Qed.

(** X6.  When the estimator gives no negative weight, it is called once
    for each qualifying pair, in the order the pairs are visited, if two
    pairs or more qualify, and not at all otherwise. *)
Theorem estimator_calls (s : t) (jointId0 jointId1 : Joint.Id) (r0 r1 : RoadPoint) :
  (forall c, In c (candidates s jointId0 jointId1) -> (0 <= pair_weight s c)%Q) ->
  calls (FindPoints_locals s jointId0 jointId1 r0 r1)
  = if (length (candidates s jointId0 jointId1) <? 2)%nat
    then []
    else map (call_of s) (candidates s jointId0 jointId1).
Proof.
  intros Pos. rewrite FindPoints_locals_candidates.
  destruct (Nat.ltb_spec (length (candidates s jointId0 jointId1)) 2) as [Lt | Ge].
  - destruct (candidates s jointId0 jointId1) as [| c [| c' cs]]; [reflexivity | | ].
    + cbn [fold_left]. now rewrite consider_init.
    + cbn [length] in Lt. lia.
  - now apply calls_of_considered.
Qed.

Lemma estimator_calls_witness :
  calls (FindPoints_locals Examples.trip (Examples.u32 1) (Examples.u32 0)
           RoadPoint_default RoadPoint_default)
  = [(Examples.town_road (Examples.u32 0), Examples.u32 4, Examples.u32 0);
     (Examples.town_road (Examples.u32 2), Examples.u32 2, Examples.u32 0)].
Proof.
  refine (estimator_calls Examples.trip (Examples.u32 1) (Examples.u32 0)
            RoadPoint_default RoadPoint_default _).
  intros c [<- | [<- | []]]; vm_compute; discriminate.
Defined.

(** X7.  Where every road the two joints share is two-way, the order of
    the joints does not matter for the exception: it is thrown for the one
    order exactly when it is thrown for the other. *)
Theorem two_way_throws_both_ways (s : t) (jointId0 jointId1 : Joint.Id)
    (r0 r1 r0' r1' : RoadPoint) :
  (forall rp0 rp1,
     In rp0 (ForEachPoint s jointId0) -> In rp1 (ForEachPoint s jointId1) ->
     GetFeatureId rp0 = GetFeatureId rp1 ->
     IsOneWay (IndexGraph.GetRoad (m_graph s) (GetFeatureId rp0)) = false) ->
  (FindPointsWithCommonFeature s jointId0 jointId1 r0 r1
   = Thrown (CantFindCommonFeature jointId0 jointId1)
   <->
   FindPointsWithCommonFeature s jointId1 jointId0 r0' r1'
   = Thrown (CantFindCommonFeature jointId1 jointId0)).
Proof.
  intros TwoWay. rewrite !FindPoints_thrown_iff, !candidates_nil. split.
  - intros H rp1 rp0 H1 H0 (Ef & Er & _). cbn [fst snd] in *.
    pose proof (TwoWay rp0 rp1 H0 H1 (eq_sym Ef)) as T.
    apply (H rp0 rp1 H0 H1). unfold Qualifies. cbn [fst snd].
    split; [now symmetry |]. split; [now rewrite <- Ef |]. intros O. congruence.
  - intros H rp0 rp1 H0 H1 (Ef & Er & _). cbn [fst snd] in *.
    pose proof (TwoWay rp0 rp1 H0 H1 Ef) as T.
    apply (H rp1 rp0 H1 H0). unfold Qualifies. cbn [fst snd].
    split; [now symmetry |]. rewrite <- Ef. split; [assumption |]. intros O. congruence.
Qed.

Lemma two_way_throws_both_ways_witness :
  FindPointsWithCommonFeature Examples.trip (Examples.u32 0) (Examples.u32 1)
    RoadPoint_default RoadPoint_default
  = Thrown (CantFindCommonFeature (Examples.u32 0) (Examples.u32 1))
  <->
  FindPointsWithCommonFeature Examples.trip (Examples.u32 1) (Examples.u32 0)
    RoadPoint_default RoadPoint_default
  = Thrown (CantFindCommonFeature (Examples.u32 1) (Examples.u32 0)).
Proof.
  apply (two_way_throws_both_ways Examples.trip).
  intros rp0 rp1 [<- | [<- | []]] _ _; reflexivity.
Defined.

(** ** More on the redressed path *)

Lemma ascending_last (featureId : uint32_t) (from : Z) (n : nat) :
  ascending featureId from (S n)
  = ascending featureId from n
    ++ [mkRoadPoint featureId (word.of_Z (from + 1 + Z.of_nat n))].
Proof. unfold ascending. now rewrite seq_S, map_app. Qed.

Lemma descending_last (featureId : uint32_t) (from : Z) (n : nat) :
  descending featureId from (S n)
  = descending featureId from n
    ++ [mkRoadPoint featureId (word.of_Z (from - 1 - Z.of_nat n))].
Proof. unfold descending. now rewrite seq_S, map_app. Qed.

Lemma steps_ascending (featureId : uint32_t) (n : nat) (from : Z) :
  0 <= from + 1 -> from + Z.of_nat n < 2 ^ 32 ->
  steps 1 (ascending featureId from n).
Proof.
  revert from. induction n as [| n IH]; intros from Lo Hi; [exact I |].
  rewrite ascending_S. destruct n as [| n]; [exact I |].
  specialize (IH (from + 1)). rewrite ascending_S in IH |- *.
  cbn [steps]. split.
  - split; [reflexivity |]. cbn [GetPointId].
    rewrite !word.unsigned_of_Z_nowrap; lia.
  - apply IH; lia.
Qed.

Lemma steps_descending (featureId : uint32_t) (n : nat) (from : Z) :
  from - 1 < 2 ^ 32 -> 0 <= from - Z.of_nat n ->
  steps (-1) (descending featureId from n).
Proof.
  revert from. induction n as [| n IH]; intros from Hi Lo; [exact I |].
  rewrite descending_S. destruct n as [| n]; [exact I |].
  specialize (IH (from - 1)). rewrite descending_S in IH |- *.
  cbn [steps]. split.
  - split; [reflexivity |]. cbn [GetPointId].
    rewrite !word.unsigned_of_Z_nowrap; lia.
  - apply IH; lia.
Qed.

(** The two ends of a segment on one road, with the points between them, are
    the points of the road from the offset of the first end to that of the
    second. *)
Lemma segment_as_range (seg : RoadPoint * RoadPoint) :
  GetFeatureId (fst seg) = GetFeatureId (snd seg) ->
  proper seg ->
  let from := word.unsigned (GetPointId (fst seg)) in
  let to := word.unsigned (GetPointId (snd seg)) in
  fst seg :: interior seg ++ [snd seg]
  = if from <? to
    then ascending (GetFeatureId (fst seg)) (from - 1) (Z.to_nat (to - from + 1))
    else descending (GetFeatureId (fst seg)) (from + 1) (Z.to_nat (from - to + 1)).
Proof.
  destruct seg as [[f0 p0] [f1 p1]]. unfold proper, interior.
  cbn [fst snd GetFeatureId GetPointId]. intros <- P.
  set (from := word.unsigned p0). set (to := word.unsigned p1).
  assert (Hne : from <> to).
  { intros E. apply P. now apply word.unsigned_inj. }
  pose proof (word.unsigned_range p0) as R0. pose proof (word.unsigned_range p1) as R1.
  fold from in R0. fold to in R1.
  destruct (Z.ltb_spec from to) as [Lt | Ge].
  - replace (Z.to_nat (to - from + 1)) with (S (S (Z.to_nat (to - from - 1)))) by lia.
    rewrite ascending_S, ascending_last.
    replace (from - 1 + 1) with from by lia.
    replace (from + 1 + Z.of_nat (Z.to_nat (to - from - 1))) with to by lia.
    subst from to. now rewrite !word.of_Z_unsigned.
  - replace (Z.to_nat (from - to + 1)) with (S (S (Z.to_nat (from - to - 1)))) by lia.
    rewrite descending_S, descending_last.
    replace (from + 1 - 1) with from by lia.
    replace (from - 1 - Z.of_nat (Z.to_nat (from - to - 1))) with to by lia.
    subst from to. now rewrite !word.of_Z_unsigned.
Qed.

(** X8.  The path redressed for two joints walks one road point by point:
    from the first point returned by [FindPointsWithCommonFeature] each
    point is on the same road, one offset further up if the second point is
    higher and one offset further down if it is lower, until the second
    point; there are as many points as offsets from the one to the other;
    on a one-way road the walk goes up. *)
Theorem segment_steps (s : t) (jointId0 jointId1 : Joint.Id)
    (seg : RoadPoint * RoadPoint) :
  FindPointsWithCommonFeature s jointId0 jointId1 RoadPoint_default RoadPoint_default
  = Returned seg ->
  proper seg ->
  let from := word.unsigned (GetPointId (fst seg)) in
  let to := word.unsigned (GetPointId (snd seg)) in
  let points := fst seg :: interior seg ++ [snd seg] in
  RedressRoute s [jointId0; jointId1] [] = (Returned tt, points) /\
  (from < to -> steps 1 points) /\
  (to < from -> steps (-1) points) /\
  Z.of_nat (length points) = Z.abs (to - from) + 1 /\
  (IsOneWay (IndexGraph.GetRoad (m_graph s) (GetFeatureId (fst seg))) = true -> from < to).
Proof.
  intros R P from to points.
  pose proof (FindPoints_returned_candidate s _ _ _ _ _ R) as Hin.
  unfold candidates in Hin. apply filter_In in Hin as [_ Q].
  apply qualifies_Qualifies in Q. destruct Q as (Ef & _ & Ow).
  assert (Hne : from <> to).
  { intros E. apply P. now apply word.unsigned_inj. }
  pose proof (word.unsigned_range (GetPointId (fst seg))) as R0.
  pose proof (word.unsigned_range (GetPointId (snd seg))) as R1.
  fold from in R0. fold to in R1.
  pose proof (segment_as_range seg Ef P) as E. cbv zeta in E. fold from to points in E.
  split; [| split; [| split; [| split]]].
  - unfold RedressRoute. cbn [length Nat.ltb Nat.leb].
    rewrite (RedressRoute_loop_resolved s [jointId0; jointId1] [seg]).
    + cbn [Nat.eqb path_points flat_map app]. unfold segment_points.
      now rewrite app_nil_r.
    + apply Resolved_next; [exact R | apply Resolved_last].
    + now constructor.
  - intros Lt. rewrite E. apply Z.ltb_lt in Lt. rewrite Lt. apply Z.ltb_lt in Lt.
    apply steps_ascending; lia.
  - intros Gt. rewrite E.
    destruct (Z.ltb_spec from to) as [Lt | _]; [lia |].
    apply steps_descending; lia.
  - rewrite E. destruct (Z.ltb_spec from to) as [Lt | Ge].
    + unfold ascending. rewrite length_map, length_seq. lia.
    + unfold descending. rewrite length_map, length_seq. lia.
  - intros O. specialize (Ow O). fold from to in Ow. lia.
Qed.

Lemma segment_steps_witness :
  RedressRoute Examples.trip [Examples.u32 1; Examples.u32 2] []
  = (Returned tt, [Examples.rp 1 0; Examples.rp 1 1; Examples.rp 1 2; Examples.rp 1 3]) /\
  steps 1 [Examples.rp 1 0; Examples.rp 1 1; Examples.rp 1 2; Examples.rp 1 3].
Proof.
  destruct (segment_steps Examples.trip (Examples.u32 1) (Examples.u32 2)
              (Examples.rp 1 0, Examples.rp 1 3)) as (E & Up & _).
  - reflexivity.
  - words_differ.
  - split; [exact E |]. apply Up. reflexivity.
Defined.

Lemma RedressRoute_body_thrown (s : t) (i : nat) (prevJoint nextJoint : Joint.Id)
    (e : RoutingException) (roadPoints : list RoadPoint) :
  FindPointsWithCommonFeature s prevJoint nextJoint RoadPoint_default RoadPoint_default
  = Thrown e ->
  RedressRoute_body s i prevJoint nextJoint roadPoints = (Thrown e, roadPoints).
Proof. intros F. unfold RedressRoute_body, bind, call. now rewrite F. Qed.

Lemma RedressRoute_loop_thrown (s : t) (before : list Joint.Id) (j0 j1 : Joint.Id)
    (rest : list Joint.Id) (e : RoutingException) :
  FindPointsWithCommonFeature s j0 j1 RoadPoint_default RoadPoint_default = Thrown e ->
  forall (segs : list (RoadPoint * RoadPoint)) (i : nat) (roadPoints : list RoadPoint),
    Resolved s (before ++ [j0]) segs ->
    Forall proper segs ->
    RedressRoute_loop s i (before ++ j0 :: j1 :: rest) roadPoints
    = (Thrown e,
       roadPoints
       ++ (if (i =? 0)%nat then path_points segs else flat_map segment_points segs)).
Proof.
  intros F. induction before as [| j before IH]; intros segs i roadPoints R P.
  - inversion R; subst. cbn [app flat_map path_points].
    rewrite RedressRoute_loop_next. unfold bind.
    rewrite (RedressRoute_body_thrown s i j0 j1 e roadPoints F).
    now destruct (i =? 0)%nat; rewrite app_nil_r.
  - assert (Hshape : exists j' tl tl',
               before ++ [j0] = j' :: tl /\ before ++ j0 :: j1 :: rest = j' :: tl').
    { destruct before as [| j' before']; cbn [app]; eauto. }
    destruct Hshape as (j' & tl & tl' & E1 & E2).
    cbn [app] in R. rewrite E1 in R. inversion R as [| ? ? ? seg0 segs' F0 R0]; subst.
    inversion P as [| ? ? Pseg Psegs]; subst.
    rewrite <- E1 in R0. specialize (IH segs' (S i)).
    cbn [app]. rewrite E2, RedressRoute_loop_next, <- E2. unfold bind.
    rewrite (RedressRoute_body_returned s i j j' seg0 roadPoints F0 Pseg).
    rewrite (IH _ R0 Psegs). cbn [Nat.eqb path_points flat_map].
    f_equal. destruct (i =? 0)%nat; cbn [app]; now rewrite <- !app_assoc.
Qed.

(** X9.  When the joints of a path resolve, to different offsets, up to a
    pair of consecutive joints that has no qualifying pair of points,
    [RedressRoute] throws the exception of [FindPointsWithCommonFeature]
    for that pair, and leaves in the vector the points of the path before
    the pair. *)
Theorem RedressRoute_no_common_feature (s : t) (before : list Joint.Id)
    (j0 j1 : Joint.Id) (rest : list Joint.Id) (segs : list (RoadPoint * RoadPoint))
    (roadPoints : list RoadPoint) :
  Resolved s (before ++ [j0]) segs ->
  Forall proper segs ->
  candidates s j0 j1 = [] ->
  RedressRoute s (before ++ j0 :: j1 :: rest) roadPoints
  = (Thrown (CantFindCommonFeature j0 j1), roadPoints ++ path_points segs).
Proof.
  intros R P N. unfold RedressRoute.
  assert (L : (length (before ++ j0 :: j1 :: rest) <? 2)%nat = false).
  { apply Nat.ltb_ge. rewrite length_app. cbn [length]. lia. }
  rewrite L.
  now rewrite (RedressRoute_loop_thrown s before j0 j1 rest _
                 (FindPoints_none s j0 j1 _ _ N) segs 0 roadPoints R P).
Qed.

Lemma RedressRoute_no_common_feature_witness :
  RedressRoute Examples.trip [Examples.u32 0; Examples.u32 1; Examples.u32 2; Examples.u32 1]
    []
  = (Thrown (CantFindCommonFeature (Examples.u32 2) (Examples.u32 1)),
     [Examples.rp 2 0; Examples.rp 2 1; Examples.rp 2 2;
      Examples.rp 1 1; Examples.rp 1 2; Examples.rp 1 3]).
Proof.
  refine (RedressRoute_no_common_feature Examples.trip
            [Examples.u32 0; Examples.u32 1] (Examples.u32 2) (Examples.u32 1) []
            [(Examples.rp 2 0, Examples.rp 2 2); (Examples.rp 1 0, Examples.rp 1 3)]
            [] _ _ _).
  - apply Resolved_next; [reflexivity |].
    apply Resolved_next; [reflexivity | apply Resolved_last].
  - repeat constructor; words_differ.
  - reflexivity.
Defined.

(** What one turn of the loop of [RedressRoute] does, by the result of
    [FindPointsWithCommonFeature]. *)
Lemma RedressRoute_body_cases (s : t) (i : nat) (prevJoint nextJoint : Joint.Id)
    (roadPoints : list RoadPoint) :
  (candidates s prevJoint nextJoint = [] /\
   RedressRoute_body s i prevJoint nextJoint roadPoints
   = (Thrown (CantFindCommonFeature prevJoint nextJoint), roadPoints)) \/
  (exists seg,
     FindPointsWithCommonFeature s prevJoint nextJoint RoadPoint_default RoadPoint_default
     = Returned seg /\
     ((proper seg /\
       RedressRoute_body s i prevJoint nextJoint roadPoints
       = (Returned tt,
          roadPoints ++ (if (i =? 0)%nat then [fst seg] else []) ++ segment_points seg)) \/
      (GetPointId (fst seg) = GetPointId (snd seg) /\
       RedressRoute_body s i prevJoint nextJoint roadPoints
       = (Thrown (WrongEquality (GetPointId (fst seg)) (GetFeatureId (fst seg))),
          roadPoints ++ (if (i =? 0)%nat then [fst seg] else []))))).
Proof.
  destruct (candidates s prevJoint nextJoint) eqn:E.
  - left. split; [reflexivity |].
    apply RedressRoute_body_thrown. now apply FindPoints_none.
  - right.
    destruct (FindPoints_some s prevJoint nextJoint RoadPoint_default RoadPoint_default)
      as (_ & R); [congruence |].
    eexists. split; [exact R |].
    match goal with |- (proper ?c /\ _) \/ _ => set (seg := c) in * end.
    destruct (word.eqb_spec (GetPointId (fst seg)) (GetPointId (snd seg))) as [Eq | Ne].
    + right. split; [exact Eq |]. now apply RedressRoute_body_equal.
    + left. split; [exact Ne |]. now apply RedressRoute_body_returned.
Qed.

Lemma RedressRoute_loop_returned (s : t) (route : list Joint.Id) :
  route <> [] ->
  forall (i : nat) (roadPoints out : list RoadPoint),
    RedressRoute_loop s i route roadPoints = (Returned tt, out) ->
    exists segs, Resolved s route segs /\ Forall proper segs.
Proof.
  induction route as [| j0 route IH]; intros N i roadPoints out; [congruence |].
  destruct route as [| j1 rest].
  - intros _. exists []. split; [apply Resolved_last | constructor].
  - rewrite RedressRoute_loop_next. unfold bind.
    destruct (RedressRoute_body_cases s i j0 j1 roadPoints)
      as [[_ B] | (seg & F & [[P B] | [_ B]])]; rewrite B; try discriminate.
    intros L. destruct (IH ltac:(discriminate) _ _ _ L) as (segs & R & Ps).
    exists (seg :: segs). split; [now apply Resolved_next | now constructor].
Qed.

(** X10.  [RedressRoute] returns for a path of two joints or more exactly
    when every two consecutive joints resolve to a pair of points with
    different offsets; in every other case it throws. *)
Theorem RedressRoute_returns_iff (s : t) (route : list Joint.Id)
    (roadPoints out : list RoadPoint) :
  (2 <= length route)%nat ->
  (RedressRoute s route roadPoints = (Returned tt, out)
   <->
   exists segs,
     Resolved s route segs /\ Forall proper segs /\
     out = roadPoints ++ path_points segs).
Proof.
  intros L. unfold RedressRoute. apply Nat.ltb_ge in L. rewrite L. split.
  - intros E.
    assert (N : route <> []) by (intros ->; cbn in L; discriminate L).
    destruct (RedressRoute_loop_returned s route N 0 roadPoints out E) as (segs & R & P).
    exists segs. split; [exact R |]. split; [exact P |].
    rewrite (RedressRoute_loop_resolved s route segs R P 0 roadPoints) in E.
    now injection E.
  - intros (segs & R & P & ->).
    now rewrite (RedressRoute_loop_resolved s route segs R P 0 roadPoints).
Qed.

Lemma RedressRoute_returns_iff_witness :
  RedressRoute Examples.trip [Examples.u32 0; Examples.u32 1] []
  = (Returned tt, [Examples.rp 2 0; Examples.rp 2 1; Examples.rp 2 2])
  <->
  exists segs,
    Resolved Examples.trip [Examples.u32 0; Examples.u32 1] segs /\ Forall proper segs /\
    [Examples.rp 2 0; Examples.rp 2 1; Examples.rp 2 2] = [] ++ path_points segs.
Proof.
  apply (RedressRoute_returns_iff Examples.trip). cbn [length]. lia.
Defined.

Lemma Resolved_app (s : t) (r1 : list Joint.Id) (j : Joint.Id) (r2 : list Joint.Id)
    (segs2 : list (RoadPoint * RoadPoint)) :
  Resolved s (j :: r2) segs2 ->
  forall segs1,
    Resolved s (r1 ++ [j]) segs1 ->
    Resolved s (r1 ++ j :: r2) (segs1 ++ segs2).
Proof.
  intros R2. induction r1 as [| a r1 IH]; intros segs1 R1.
  - inversion R1; subst. exact R2.
  - assert (Hshape : exists j' tl tl',
               r1 ++ [j] = j' :: tl /\ r1 ++ j :: r2 = j' :: tl').
    { destruct r1 as [| j' r1']; cbn [app]; eauto. }
    destruct Hshape as (j' & tl & tl' & E1 & E2).
    cbn [app] in R1. rewrite E1 in R1. inversion R1 as [| ? ? ? seg0 segs1' F0 R0]; subst.
    rewrite <- E1 in R0. cbn [app]. rewrite E2.
    apply Resolved_next; [exact F0 |]. rewrite <- E2. now apply IH.
Qed.

Lemma path_points_app (segs1 segs2 : list (RoadPoint * RoadPoint)) :
  segs1 <> [] ->
  path_points (segs1 ++ segs2) = path_points segs1 ++ flat_map segment_points segs2.
Proof.
  destruct segs1 as [| seg segs1]; [congruence |]. intros _.
  cbn [app path_points].
  change (seg :: segs1 ++ segs2) with ((seg :: segs1) ++ segs2).
  now rewrite flat_map_app.
Qed.

(** X11.  Redressing composes: when a path up to a joint and a path from
    that joint on are both redressed, the two paths put together are
    redressed to the points of the first followed by the points of the
    second without its first point. *)
Theorem RedressRoute_concat (s : t) (r1 : list Joint.Id) (j : Joint.Id)
    (r2 : list Joint.Id) (out1 out2 roadPoints : list RoadPoint) :
  r1 <> [] -> r2 <> [] ->
  RedressRoute s (r1 ++ [j]) [] = (Returned tt, out1) ->
  RedressRoute s (j :: r2) [] = (Returned tt, out2) ->
  RedressRoute s (r1 ++ j :: r2) roadPoints = (Returned tt, roadPoints ++ out1 ++ tl out2).
Proof.
  intros N1 N2. unfold RedressRoute.
  assert (L1 : (length (r1 ++ [j]) <? 2)%nat = false).
  { apply Nat.ltb_ge. rewrite length_app. destruct r1; [congruence | cbn [length]; lia]. }
  assert (L2 : (length (j :: r2) <? 2)%nat = false).
  { apply Nat.ltb_ge. destruct r2; [congruence | cbn [length]; lia]. }
  assert (L : (length (r1 ++ j :: r2) <? 2)%nat = false).
  { apply Nat.ltb_ge. rewrite length_app.
    destruct r1; [congruence | cbn [length]; lia]. }
  rewrite L1, L2, L. intros E1 E2.
  destruct (RedressRoute_loop_returned s (r1 ++ [j])) with (2 := E1) as (segs1 & R1 & P1).
  { now destruct r1. }
  destruct (RedressRoute_loop_returned s (j :: r2)) with (2 := E2) as (segs2 & R2 & P2).
  { discriminate. }
  rewrite (RedressRoute_loop_resolved s _ _ R1 P1 0 []) in E1.
  rewrite (RedressRoute_loop_resolved s _ _ R2 P2 0 []) in E2.
  cbn [Nat.eqb app] in E1, E2. injection E1 as <-. injection E2 as <-.
  assert (S1 : segs1 <> []).
  { intros ->. apply Resolved_length in R1. rewrite length_app in R1.
    destruct r1; [congruence | cbn [length] in R1; lia]. }
  assert (S2 : segs2 <> []).
  { intros ->. apply Resolved_length in R2.
    destruct r2; [congruence | cbn [length] in R2; lia]. }
  rewrite (RedressRoute_loop_resolved s _ _ (Resolved_app s r1 j r2 segs2 R2 segs1 R1)
             (proj2 (Forall_app _ _ _) (conj P1 P2)) 0 roadPoints).
  cbn [Nat.eqb]. rewrite (path_points_app segs1 segs2 S1).
  destruct segs2 as [| seg segs2]; [congruence |]. reflexivity.
Qed.

Lemma RedressRoute_concat_witness :
  RedressRoute Examples.trip [Examples.u32 3; Examples.u32 1; Examples.u32 4] []
  = (Returned tt,
     [] ++ [Examples.rp 0 2; Examples.rp 0 3; Examples.rp 0 4]
        ++ tl [Examples.rp 1 0; Examples.rp 1 1]).
Proof.
  refine (RedressRoute_concat Examples.trip [Examples.u32 3] (Examples.u32 1)
            [Examples.u32 4] _ _ [] _ _ _ _).
  - discriminate.
  - discriminate.
  - reflexivity.
  - reflexivity.
Defined.

Lemma RedressRoute_loop_thrown_from (s : t) (route : list Joint.Id) :
  forall (i : nat) (roadPoints out : list RoadPoint) (e : RoutingException),
    RedressRoute_loop s i route roadPoints = (Thrown e, out) ->
    exists before a b rest,
      route = before ++ a :: b :: rest /\
      ((e = CantFindCommonFeature a b /\ candidates s a b = []) \/
       (exists seg,
          FindPointsWithCommonFeature s a b RoadPoint_default RoadPoint_default
          = Returned seg /\
          GetPointId (fst seg) = GetPointId (snd seg) /\
          e = WrongEquality (GetPointId (fst seg)) (GetFeatureId (fst seg)))).
Proof.
  induction route as [| j0 route IH]; intros i roadPoints out e; [discriminate |].
  destruct route as [| j1 rest]; [discriminate |].
  rewrite RedressRoute_loop_next. unfold bind.
  destruct (RedressRoute_body_cases s i j0 j1 roadPoints)
    as [[C B] | (seg & F & [[P B] | [Eq B]])]; rewrite B.
  - intros T. injection T as <- _. exists [], j0, j1, rest. split; [reflexivity |]. now left.
  - intros T. destruct (IH _ _ _ _ T) as (before & a & b & rest' & E & H).
    exists (j0 :: before), a, b, rest'. split; [cbn [app]; now rewrite E | exact H].
  - intros T. injection T as <- _. exists [], j0, j1, rest. split; [reflexivity |].
    right. exists seg. now repeat split.
Qed.

(** X12.  Every exception of [RedressRoute] comes from two consecutive
    joints of the path: either no pair of their points qualifies and the
    exception names the two joints, or the pair of points resolved for them
    has equal offsets and the exception names that offset and the road. *)
Theorem RedressRoute_thrown_from (s : t) (route : list Joint.Id)
    (roadPoints out : list RoadPoint) (e : RoutingException) :
  RedressRoute s route roadPoints = (Thrown e, out) ->
  exists before a b rest,
    route = before ++ a :: b :: rest /\
    ((e = CantFindCommonFeature a b /\ candidates s a b = []) \/
     (exists seg,
        FindPointsWithCommonFeature s a b RoadPoint_default RoadPoint_default
        = Returned seg /\
        GetPointId (fst seg) = GetPointId (snd seg) /\
        e = WrongEquality (GetPointId (fst seg)) (GetFeatureId (fst seg)))).
Proof.
  unfold RedressRoute. destruct (length route <? 2)%nat.
  - destruct (length route =? 1)%nat; discriminate.
  - apply RedressRoute_loop_thrown_from.
Qed.

Lemma RedressRoute_thrown_from_witness :
  exists before a b rest,
    [Examples.u32 1; Examples.u32 2; Examples.u32 1] = before ++ a :: b :: rest /\
    ((CantFindCommonFeature (Examples.u32 2) (Examples.u32 1) = CantFindCommonFeature a b /\
      candidates Examples.trip a b = []) \/
     (exists seg,
        FindPointsWithCommonFeature Examples.trip a b RoadPoint_default RoadPoint_default
        = Returned seg /\
        GetPointId (fst seg) = GetPointId (snd seg) /\
        CantFindCommonFeature (Examples.u32 2) (Examples.u32 1)
        = WrongEquality (GetPointId (fst seg)) (GetFeatureId (fst seg)))).
Proof.
  apply (RedressRoute_thrown_from Examples.trip
           [Examples.u32 1; Examples.u32 2; Examples.u32 1] []
           [Examples.rp 1 0; Examples.rp 1 1; Examples.rp 1 2; Examples.rp 1 3]).
  reflexivity.
Defined.

Lemma length_segment_points (seg : RoadPoint * RoadPoint) :
  proper seg ->
  Z.of_nat (length (segment_points seg))
  = Z.abs (word.unsigned (GetPointId (snd seg)) - word.unsigned (GetPointId (fst seg))).
Proof.
  intros P. unfold segment_points. rewrite length_app. cbn [length].
  destruct (interior_nth seg 0 RoadPoint_default) as [-> _].
  assert (Hne : word.unsigned (GetPointId (fst seg)) <> word.unsigned (GetPointId (snd seg))).
  { intros E. apply P. now apply word.unsigned_inj. }
  lia.
Qed.

(** X13.  The path redressed for two joints or more has one point more
    than the offsets walked: the sum, over the pairs of points resolved for
    the consecutive joints, of the distance between the two offsets. *)
Theorem RedressRoute_length (s : t) (route : list Joint.Id)
    (segs : list (RoadPoint * RoadPoint)) (roadPoints : list RoadPoint) :
  (2 <= length route)%nat ->
  Resolved s route segs ->
  Forall proper segs ->
  exists out,
    RedressRoute s route roadPoints = (Returned tt, roadPoints ++ out) /\
    Z.of_nat (length out) = 1 + offsets_walked segs.
Proof.
  intros L R P. exists (path_points segs). split.
  - unfold RedressRoute. apply Nat.ltb_ge in L. rewrite L.
    now rewrite (RedressRoute_loop_resolved s route segs R P 0).
  - apply Resolved_length in R.
    destruct segs as [| seg segs]; [cbn [length] in R; lia |].
    cbn [path_points length]. clear R L.
    assert (H : Z.of_nat (length (flat_map segment_points (seg :: segs)))
                = offsets_walked (seg :: segs)).
    { induction P as [| c cs Pc Pcs IH]; [reflexivity |].
      cbn [flat_map offsets_walked fold_right]. rewrite length_app, Nat2Z.inj_add.
      rewrite (length_segment_points c Pc). unfold offsets_walked in IH. now rewrite IH. }
    lia.
Qed.

Lemma RedressRoute_length_witness :
  exists out,
    RedressRoute Examples.trip [Examples.u32 0; Examples.u32 1; Examples.u32 2] []
    = (Returned tt, [] ++ out) /\
    Z.of_nat (length out)
    = 1 + offsets_walked [(Examples.rp 2 0, Examples.rp 2 2);
                          (Examples.rp 1 0, Examples.rp 1 3)].
Proof.
  apply (RedressRoute_length Examples.trip).
  - cbn [length]. lia.
  - apply Resolved_next; [reflexivity |].
    apply Resolved_next; [reflexivity | apply Resolved_last].
  - repeat constructor; words_differ.
Defined.

(** ** Reading a text path *)

Lemma map_nth_error_seq {A : Type} (l : list A) :
  map (nth_error l) (seq 0 (length l)) = map Some l.
Proof.
  induction l as [| a l IH]; [reflexivity |].
  cbn [length seq map nth_error]. f_equal.
  rewrite <- seq_shift, map_map. exact IH.
Qed.

Section ReadingTextPath.

Context {width : Z} {size_t : word.word width} {size_t_ok : word.ok size_t}.

Variable assertions : bool.

(** A read below [m_size], when the array holds [m_size] points at least:
    the point at the index, counted from the end of the path if the path is
    reversed. *)
Lemma get_in_range (p : yg.TextPath (size_t := size_t)) (i : size_t) :
  word.unsigned (yg.m_size p) <= Z.of_nat (length (yg.m_arr p)) ->
  word.unsigned i < word.unsigned (yg.m_size p) ->
  let n := Z.to_nat (word.unsigned (yg.m_size p)) in
  let k := Z.to_nat (word.unsigned i) in
  let points := firstn n (yg.m_arr p) in
  nth_error (if yg.m_reverse p then rev points else points) k <> None /\
  match nth_error (if yg.m_reverse p then rev points else points) k with
  | Some pt => yg.get assertions p i = yg.Point pt
  | None => True
  end.
Proof.
  destruct p as [arr m reverse]. cbn [yg.m_arr yg.m_size yg.m_reverse].
  intros Hm Hi.
  pose proof (word.unsigned_range i) as Ri. pose proof (word.unsigned_range m) as Rm.
  set (n := Z.to_nat (word.unsigned m)). set (k := Z.to_nat (word.unsigned i)).
  set (points := firstn n arr).
  assert (Lp : length points = n) by (apply firstn_length_le; lia).
  assert (Hk : (k < n)%nat) by lia.
  assert (E : nth_error (if reverse then rev points else points) k
              = nth_error arr (if reverse then (n - S k)%nat else k)).
  { destruct reverse.
    - rewrite nth_error_rev, Lp, (proj2 (Nat.ltb_lt k n) Hk).
      unfold points. rewrite nth_error_firstn.
      now rewrite (proj2 (Nat.ltb_lt (n - S k) n)) by lia.
    - unfold points. rewrite nth_error_firstn. now rewrite (proj2 (Nat.ltb_lt k n) Hk). }
  assert (Hsome : nth_error arr (if reverse then (n - S k)%nat else k) <> None).
  { apply nth_error_Some. destruct reverse; lia. }
  rewrite E. split; [exact Hsome |].
  destruct (nth_error arr (if reverse then (n - S k)%nat else k)) as [pt |] eqn:N;
    [| exact I].
  unfold yg.get. cbn [yg.m_arr yg.m_size yg.m_reverse].
  rewrite word.unsigned_ltu, (proj2 (Z.ltb_lt _ _) Hi), andb_false_r.
  unfold yg.subscript.
  assert (Ei : Z.to_nat (word.unsigned
                 (if reverse then word.sub (word.sub m i) (word.of_Z 1) else i))
               = if reverse then (n - S k)%nat else k).
  { destruct reverse; [| reflexivity].
    assert (Es : word.unsigned (word.sub m i) = word.unsigned m - word.unsigned i).
    { apply word.unsigned_sub_nowrap. lia. }
    rewrite word.unsigned_sub_nowrap; rewrite word.unsigned_of_Z_1, Es; lia. }
  now rewrite Ei, N.
Qed.

(** X14.  Reading a text path whose array holds [m_size] points at least:
    every index below [size ()] gives a point of the array, whether the
    assertions are compiled in or not; read from index 0 up to
    [size () - 1], a path that is not reversed gives the first [m_size]
    points of the array in their order, and a reversed path gives them in
    the opposite order; [operator[]] reads as [get] does. *)
Theorem get_reads_path (p : yg.TextPath (size_t := size_t)) :
  word.unsigned (yg.m_size p) <= Z.of_nat (length (yg.m_arr p)) ->
  let n := Z.to_nat (word.unsigned (yg.size p)) in
  let points := firstn n (yg.m_arr p) in
  map (fun k => yg.get assertions p (word.of_Z (Z.of_nat k))) (seq 0 n)
  = map yg.Point (if yg.m_reverse p then rev points else points) /\
  (forall i, word.ltu i (yg.size p) = true ->
     exists pt, yg.get assertions p i = yg.Point pt /\ In pt points) /\
  (forall i, yg.at_ assertions p i = yg.get assertions p i).
Proof.
  intros Hm n points. unfold yg.size in *.
  pose proof (word.unsigned_range (yg.m_size p)) as Rm.
  assert (Lp : length points = n) by (apply firstn_length_le; lia).
  assert (Lr : length (if yg.m_reverse p then rev points else points) = n).
  { destruct (yg.m_reverse p); [now rewrite length_rev | exact Lp]. }
  split; [| split; [| reflexivity]].
  - set (read := fun o : option m2.PointD =>
                   match o with
                   | Some pt => yg.Point pt
                   | None => yg.OutsideArray
                   end).
    set (path := if yg.m_reverse p then rev points else points) in *.
    transitivity (map read (map (nth_error path) (seq 0 n))).
    + rewrite map_map. apply map_ext_in. intros k Hk. apply in_seq in Hk.
      assert (Ek : word.unsigned (word.of_Z (Z.of_nat k) : size_t) = Z.of_nat k).
      { apply word.unsigned_of_Z_nowrap. lia. }
      destruct (get_in_range p (word.of_Z (Z.of_nat k)) Hm) as (_ & G); [lia |].
      rewrite Ek, Nat2Z.id in G. fold n points path in G.
      unfold read. destruct (nth_error path k) as [pt |] eqn:N; [exact G |].
      apply nth_error_None in N. lia.
    + replace (seq 0 n) with (seq 0 (length path)) by now rewrite Lr.
      rewrite map_nth_error_seq, map_map. reflexivity.
  - intros i Hi. rewrite word.unsigned_ltu in Hi. apply Z.ltb_lt in Hi.
    destruct (get_in_range p i Hm Hi) as (Hsome & G). fold n points in Hsome, G.
    destruct (nth_error _ _) as [pt |] eqn:N; [| congruence].
    exists pt. split; [exact G |].
    apply nth_error_In in N. destruct (yg.m_reverse p); [now apply in_rev | exact N].
Qed.

End ReadingTextPath.

Lemma get_reads_path_witness :
  map (fun k =>
         yg.get (size_t := Naive.word64) true
           (yg.mkTextPath
              [m2.mkPointD 0 0; m2.mkPointD 1 0; m2.mkPointD 2 1; m2.mkPointD 9 9]
              (word.of_Z 3) true)
           (word.of_Z (Z.of_nat k)))
    (seq 0 3)
  = [yg.Point (m2.mkPointD 2 1); yg.Point (m2.mkPointD 1 0); yg.Point (m2.mkPointD 0 0)].
Proof.
  refine (proj1 (get_reads_path (size_t_ok := Naive.word64_ok) true
                   (yg.mkTextPath
                      [m2.mkPointD 0 0; m2.mkPointD 1 0; m2.mkPointD 2 1; m2.mkPointD 9 9]
                      (word.of_Z 3) true) _)).
  vm_compute. discriminate.
Defined.

(** With the assertions compiled out, a path that is not reversed reads
    the array also from [m_size] on; with the assertions compiled in, the
    same read fails. *)
Example get_beyond_size :
  let p := yg.mkTextPath (size_t := Naive.word64)
             [m2.mkPointD 0 0; m2.mkPointD 1 0; m2.mkPointD 2 1; m2.mkPointD 9 9]
             (word.of_Z 3) false in
  yg.get false p (word.of_Z 3) = yg.Point (m2.mkPointD 9 9) /\
  yg.get true p (word.of_Z 3) = yg.AssertionFailed.
Proof. split; reflexivity. Qed.
